(** * explain_my_repo: a shallow embedding of [app.py]

    The development models the pure core of the application:

    - [extract_repo_info], the repository-reference parser (a regular
      expression search followed by the removal of [.git]);
    - [parse_analysis], the response normalizer (fence stripping, JSON
      decoding, default filling, diagram repair, tech-stack joining);
    - [fetch_readme], [fetch_repo_structure], [fetch_dependency_files] and
      [fetch_github_data], the remote-metadata client, over an explicit
      model of the network;
    - [check_rate_limit], [call_gemini_api] and the route [analyze], which
      composes the parts above; the text of the prompt that
      [generate_analysis] builds is not modelled.

    Python values are modelled as follows.  A [str] is the list of its
    Unicode code points.  A decoded JSON document is a [json] tree whose
    objects are finite maps ([gmap]), as Python dictionaries are compared by
    their content.  A Python exception that leaves a function is a [Raise]
    outcome; [try]/[except] blocks are written out as matches on outcomes.
    The network is a [world]: a function giving, for the n-th request of a run
    and its address, what [requests.get] does. *)

From Stdlib Require Import NArith ZArith List String Ascii Lia Bool DecimalString.
From Stdlib Require Import Sorting.Sorted.
From stdpp Require Import base decidable option list gmap.
Import ListNotations.

#[local] Set Warnings "-register-all,-abstract-large-number".
#[local] Open Scope list_scope.

(** ** Python strings *)

Module PyStr.

(** A string is the sequence of its code points. *)
Abbreviation str := (list N).

Definition chr (a : ascii) : N := N_of_ascii a.

(** String literals of the source, which are ASCII unless noted. *)
Definition lit (s : string) : str := map N_of_ascii (list_ascii_of_string s).

Definition in_range (lo hi c : N) : bool := (lo <=? c)%N && (c <=? hi)%N.

(** [str.isspace] on one character, which is also what [str.strip()] removes
    and what [\s] matches in a [str] pattern: the code points that CPython's
    [_PyUnicode_IsWhitespace] lists. *)
Definition isspace (c : N) : bool :=
  in_range 0x09 0x0D c || in_range 0x1C 0x20 c
  || (c =? 0x85)%N || (c =? 0xA0)%N || (c =? 0x1680)%N
  || in_range 0x2000 0x200A c
  || (c =? 0x2028)%N || (c =? 0x2029)%N || (c =? 0x202F)%N
  || (c =? 0x205F)%N || (c =? 0x3000)%N.

(** [s.lstrip(chars)], [s.rstrip(chars)] with the character set as a
    predicate. *)
Fixpoint lstrip_by (p : N -> bool) (s : str) : str :=
  match s with
  | c :: r => if p c then lstrip_by p r else s
  | [] => []
  end.

Definition rstrip_by (p : N -> bool) (s : str) : str :=
  rev (lstrip_by p (rev s)).

(** [s.strip()] *)
Definition strip (s : str) : str := rstrip_by isspace (lstrip_by isspace s).

(** [s.rstrip(chars)] for an explicit set of characters. *)
Definition rstrip_chars (chars s : str) : str :=
  rstrip_by (fun c => existsb (N.eqb c) chars) s.

(** [s.startswith(p)] *)
Fixpoint startswith (s p : str) {struct p} : bool :=
  match p, s with
  | [], _ => true
  | a :: p', b :: s' => (a =? b)%N && startswith s' p'
  | _ :: _, [] => false
  end.

(** [s.endswith(p)] *)
Definition endswith (s p : str) : bool := startswith (rev s) (rev p).

(** [s[n:]], [s[:n]] and [s[:-n]] *)
Definition slice_from (n : nat) (s : str) : str := skipn n s.
Definition slice_to (n : nat) (s : str) : str := firstn n s.
Definition slice_to_neg (n : nat) (s : str) : str :=
  firstn (length s - n) s.

(** [s.replace(old, new)] for a non-empty [old]: occurrences are found from
    left to right and do not overlap.  [skip] counts the characters of a
    matched occurrence that are still to be dropped. *)
Fixpoint replace_from (old new : str) (skip : nat) (s : str) : str :=
  match s with
  | [] => []
  | c :: r =>
      match skip with
      | S k => replace_from old new k r
      | O =>
          if startswith s old
          then new ++ replace_from old new (length old - 1) r
          else c :: replace_from old new 0 r
      end
  end.

Definition replace (s old new : str) : str := replace_from old new 0 s.

(** [sep.join(parts)] *)
Fixpoint join (sep : str) (parts : list str) : str :=
  match parts with
  | [] => []
  | [p] => p
  | p :: rest => p ++ sep ++ join sep rest
  end.

(** Comparison of two strings, which Python does code point by code
    point: [str_leb a b] is [a <= b]. *)
Fixpoint str_leb (a b : str) : bool :=
  match a, b with
  | [], _ => true
  | _ :: _, [] => false
  | x :: a', y :: b' =>
      if (x <? y)%N then true
      else if (y <? x)%N then false
      else str_leb a' b'
  end.

Definition str_eqb (a b : str) : bool := bool_decide (a = b).

Definition is_ascii (c : N) : bool := (c <? 128)%N.

Definition ascii_lower (c : N) : N :=
  if in_range 65 90 c then (c + 32)%N else c.

(** [s.lower()].  On a string of ASCII characters this is the map of
    [A-Z] to [a-z].  On any other string the result comes from the Unicode
    case tables of the interpreter, which are not part of the repository:
    they are the parameter [unicode_lower]. *)
Definition lower (unicode_lower : str -> str) (s : str) : str :=
  if forallb is_ascii s then map ascii_lower s else unicode_lower s.

End PyStr.
Import PyStr.

(** ** JSON documents and [json.loads] *)

Module Json.

(** A decoded document.  A number keeps the text it was written with (the
    program never computes with one); [NaN], [Infinity] and [-Infinity], which
    [json.loads] accepts, are numbers too.  An object is a dictionary. *)
Inductive json : Type :=
| JNull
| JBool (b : bool)
| JNumber (lexeme : str)
| JString (s : str)
| JArray (items : list json)
| JObject (members : gmap str json).

(** The result of a scanning function: a value and the text after it, a
    [JSONDecodeError], or a recursion budget that was too small (which
    [json_loads_fuel] below excludes for the budget [json_loads] gives). *)
Inductive scanned (A : Type) : Type :=
| POk (a : A) (rest : str)
| PError
| PFuel.
Arguments POk {A} a rest.
Arguments PError {A}.
Arguments PFuel {A}.

Definition c_quote : N := 34.
Definition c_backslash : N := 92.

(** The characters of [WHITESPACE]: space, tab, line feed, carriage return. *)
Definition is_json_ws (c : N) : bool :=
  (c =? 32)%N || (c =? 9)%N || (c =? 10)%N || (c =? 13)%N.

Definition skip_ws (s : str) : str := lstrip_by is_json_ws s.

Definition is_digit (c : N) : bool := in_range 48 57 c.

Definition hex_digit (c : N) : option N :=
  if in_range 48 57 c then Some (c - 48)%N
  else if in_range 97 102 c then Some (c - 87)%N
  else if in_range 65 70 c then Some (c - 55)%N
  else None.

Definition hex4 (a b c d : N) : option N :=
  match hex_digit a, hex_digit b, hex_digit c, hex_digit d with
  | Some x, Some y, Some z, Some w => Some (((x * 16 + y) * 16 + z) * 16 + w)%N
  | _, _, _, _ => None
  end.

(** The [BACKSLASH] table of the decoder. *)
Definition escape_char (c : N) : option N :=
  if (c =? c_quote)%N then Some c_quote
  else if (c =? c_backslash)%N then Some c_backslash
  else if (c =? chr "/")%N then Some (chr "/")
  else if (c =? chr "b")%N then Some 8%N
  else if (c =? chr "f")%N then Some 12%N
  else if (c =? chr "n")%N then Some 10%N
  else if (c =? chr "r")%N then Some 13%N
  else if (c =? chr "t")%N then Some 9%N
  else None.

Definition is_high_surrogate (u : N) : bool := in_range 0xD800 0xDBFF u.
Definition is_low_surrogate (u : N) : bool := in_range 0xDC00 0xDFFF u.
Definition join_surrogates (hi lo : N) : N :=
  (0x10000 + ((hi - 0xD800) * 0x400 + (lo - 0xDC00)))%N.

(** [scanstring(s, end, strict=True)], started after the opening quote:
    the characters up to the closing quote with the escapes decoded.  A
    control character, an unknown escape, a bad [\uXXXX] and a missing
    closing quote are errors.  A high surrogate escape directly followed by
    a low surrogate escape is one character. *)
Fixpoint scanstring (s : str) (acc : str) : scanned str :=
  match s with
  | [] => PError
  | c :: r =>
      if (c =? c_quote)%N then POk acc r
      else if (c =? c_backslash)%N then
        match r with
        | [] => PError
        | e :: r1 =>
            if (e =? chr "u")%N then
              match r1 with
              | h1 :: h2 :: h3 :: h4 :: r2 =>
                  match hex4 h1 h2 h3 h4 with
                  | None => PError
                  | Some u =>
                      if is_high_surrogate u then
                        match r2 with
                        | b :: x :: k1 :: k2 :: k3 :: k4 :: r3 =>
                            if (b =? c_backslash)%N && (x =? chr "u")%N then
                              match hex4 k1 k2 k3 k4 with
                              | None => PError
                              | Some u2 =>
                                  if is_low_surrogate u2
                                  then scanstring r3 (acc ++ [join_surrogates u u2])
                                  else scanstring r2 (acc ++ [u])
                              end
                            else scanstring r2 (acc ++ [u])
                        | _ => scanstring r2 (acc ++ [u])
                        end
                      else scanstring r2 (acc ++ [u])
                  end
              | _ => PError
              end
            else
              match escape_char e with
              | Some x => scanstring r1 (acc ++ [x])
              | None => PError
              end
        end
      else if (c <? 0x20)%N then PError
      else scanstring r (acc ++ [c])
  end.

(** The longest prefix of digits and what follows it. *)
Fixpoint span_digits (s : str) : str * str :=
  match s with
  | c :: r =>
      if is_digit c
      then let '(ds, rest) := span_digits r in (c :: ds, rest)
      else ([], s)
  | [] => ([], [])
  end.

(** The three groups of [NUMBER_RE], matched at the start of [s]: an
    integer part (an optional minus sign, then [0] or a digit [1-9] and any
    digits), an optional fraction (a dot and one digit or more) and an
    optional exponent ([e] or [E], an optional sign, one digit or more).
    Each gives the text it matched and the rest. *)
Definition match_integer (s : str) : option (str * str) :=
  let '(sign, s1) :=
    match s with
    | c :: r => if (c =? chr "-")%N then ([c], r) else ([], s)
    | [] => ([], s)
    end in
  match s1 with
  | c :: r =>
      if (c =? chr "0")%N then Some (sign ++ [c], r)
      else if in_range 49 57 c
      then let '(ds, rest) := span_digits r in Some (sign ++ c :: ds, rest)
      else None
  | [] => None
  end.

Definition match_frac (s : str) : str * str :=
  match s with
  | p :: d :: r =>
      if (p =? chr ".")%N && is_digit d
      then let '(ds, rest) := span_digits r in (p :: d :: ds, rest)
      else ([], s)
  | _ => ([], s)
  end.

Definition match_exp (s : str) : str * str :=
  match s with
  | e :: r =>
      if (e =? chr "e")%N || (e =? chr "E")%N then
        let '(sign, r1) :=
          match r with
          | g :: r' =>
              if (g =? chr "-")%N || (g =? chr "+")%N then ([g], r') else ([], r)
          | [] => ([], r)
          end in
        match span_digits r1 with
        | ([], _) => ([], s)
        | (ds, rest) => (e :: sign ++ ds, rest)
        end
      else ([], s)
  | [] => ([], s)
  end.

Definition match_number (s : str) : option (str * str) :=
  match match_integer s with
  | None => None
  | Some (int, r) =>
      let '(frac, r1) := match_frac r in
      let '(exp, r2) := match_exp r1 in
      Some (int ++ frac ++ exp, r2)
  end.

(** [scan_once], [JSONArray] and [JSONObject] of the decoder.  The three
    call each other; [fuel] bounds the depth of the calls.  [array_items]
    is the loop of [JSONArray] at the start of a value, [object_members] the
    loop of [JSONObject] at the opening quote of a key; a later pair with a
    key seen before replaces the earlier one, as [dict(pairs)] does. *)
Fixpoint scan_once (fuel : nat) (s : str) : scanned json :=
  match fuel with
  | O => PFuel
  | S fuel' =>
      match s with
      | [] => PError
      | c :: r =>
          if (c =? c_quote)%N then
            match scanstring r [] with
            | POk v rest => POk (JString v) rest
            | PError => PError
            | PFuel => PFuel
            end
          else if (c =? chr "{")%N then
            match skip_ws r with
            | d :: r1 =>
                if (d =? chr "}")%N then POk (JObject ∅) r1
                else object_members fuel' (d :: r1) ∅
            | [] => PError
            end
          else if (c =? chr "[")%N then
            match skip_ws r with
            | d :: r1 =>
                if (d =? chr "]")%N then POk (JArray []) r1
                else array_items fuel' (d :: r1) []
            | [] => PError
            end
          else if startswith s (lit "null") then POk JNull (skipn 4 s)
          else if startswith s (lit "true") then POk (JBool true) (skipn 4 s)
          else if startswith s (lit "false") then POk (JBool false) (skipn 5 s)
          else
            match match_number s with
            | Some (lexeme, rest) => POk (JNumber lexeme) rest
            | None =>
                if startswith s (lit "NaN")
                then POk (JNumber (lit "NaN")) (skipn 3 s)
                else if startswith s (lit "Infinity")
                then POk (JNumber (lit "Infinity")) (skipn 8 s)
                else if startswith s (lit "-Infinity")
                then POk (JNumber (lit "-Infinity")) (skipn 9 s)
                else PError
            end
      end
  end

with array_items (fuel : nat) (s : str) (acc : list json) : scanned json :=
  match fuel with
  | O => PFuel
  | S fuel' =>
      match scan_once fuel' s with
      | POk v r =>
          match skip_ws r with
          | d :: r1 =>
              if (d =? chr "]")%N then POk (JArray (acc ++ [v])) r1
              else if (d =? chr ",")%N
              then array_items fuel' (skip_ws r1) (acc ++ [v])
              else PError
          | [] => PError
          end
      | PError => PError
      | PFuel => PFuel
      end
  end

with object_members (fuel : nat) (s : str) (acc : gmap str json) : scanned json :=
  match fuel with
  | O => PFuel
  | S fuel' =>
      match s with
      | q :: r =>
          if (q =? c_quote)%N then
            match scanstring r [] with
            | POk key r1 =>
                match skip_ws r1 with
                | colon :: r2 =>
                    if (colon =? chr ":")%N then
                      match scan_once fuel' (skip_ws r2) with
                      | POk v r3 =>
                          match skip_ws r3 with
                          | d :: r4 =>
                              if (d =? chr "}")%N
                              then POk (JObject (<[key := v]> acc)) r4
                              else if (d =? chr ",")%N
                              then object_members fuel' (skip_ws r4)
                                     (<[key := v]> acc)
                              else PError
                          | [] => PError
                          end
                      | PError => PError
                      | PFuel => PFuel
                      end
                    else PError
                | [] => PError
                end
            | PError => PError
            | PFuel => PFuel
            end
          else PError
      | [] => PError
      end
  end.

(** [json.loads(s)]: [None] stands for [JSONDecodeError].  A leading byte
    order mark is refused, white space may surround the value, and nothing
    else may follow it.  The interpreter's own limits (recursion depth,
    digits of an integer) are outside the model. *)
Definition json_loads (s : str) : option json :=
  if startswith s [0xFEFF%N] then None
  else
    match scan_once (2 * length s + 1) (skip_ws s) with
    | POk v rest =>
        match skip_ws rest with
        | [] => Some v
        | _ :: _ => None
        end
    | _ => None
    end.

(** JSON texts are written below with ['] in place of the double quote. *)
Definition dq (s : string) : str :=
  map (fun c => if (c =? 39)%N then c_quote else c) (lit s).

End Json.
Import Json.

(** ** The repository-reference parser *)

Module Regex.

(** A backtracking matcher in continuation style, as [re] runs a pattern:
    a piece is given the continuation [k] for what follows it and the text
    at the current position; [None] makes the caller try its next
    alternative. *)
Section Matcher.
Context {R : Type}.

(** The rest of [s] after the literal [p]. *)
Fixpoint strip_prefix (p s : str) {struct p} : option str :=
  match p, s with
  | [], _ => Some s
  | a :: p', b :: s' => if (a =? b)%N then strip_prefix p' s' else None
  | _ :: _, [] => None
  end.

Definition m_lit (p : str) (k : str -> option R) (s : str) : option R :=
  match strip_prefix p s with
  | Some r => k r
  | None => None
  end.

(** [(?:body)?], greedy: first with the body, then without it. *)
Definition m_opt (body : (str -> option R) -> str -> option R)
    (k : str -> option R) (s : str) : option R :=
  match body k s with
  | Some x => Some x
  | None => k s
  end.

(** [([cls]+)], greedy and capturing: the longest run first, then each
    shorter one down to one character.  [acc] is the run matched so far;
    the continuation receives the captured run. *)
Fixpoint m_plus (cls : N -> bool) (k : str -> str -> option R)
    (acc : str) (s : str) : option R :=
  match s with
  | c :: r =>
      if cls c then
        match m_plus cls k (acc ++ [c]) r with
        | Some x => Some x
        | None => k (acc ++ [c]) r
        end
      else None
  | [] => None
  end.
End Matcher.

End Regex.
Import Regex.

(** [[^/]] *)
Definition not_slash (c : N) : bool := negb (c =? chr "/")%N.

(** [[^/\s?#]] *)
Definition repo_char (c : N) : bool :=
  negb ((c =? chr "/")%N || isspace c || (c =? chr "?")%N || (c =? chr "#")%N).

(** The part [github\.com/([^/]+)/([^/\s?#]+)] of the pattern, matched at
    the start of [s]: the two groups. *)
Definition host_and_groups (s : str) : option (str * str) :=
  m_lit (lit "github.com/")
    (m_plus not_slash
       (fun owner =>
          m_lit (lit "/")
            (m_plus repo_char (fun repo _ => Some (owner, repo)) []))
       [])
    s.

(** The pattern [(?:https?://)?(?:www\.)?github\.com/([^/]+)/([^/\s?#]+)]
    matched at the start of [s]. *)
Definition match_here (s : str) : option (str * str) :=
  m_opt (fun k => m_lit (lit "http") (m_opt (m_lit (lit "s")) (m_lit (lit "://") k)))
    (m_opt (m_lit (lit "www.")) host_and_groups)
    s.

(** [re.search(pattern, s)]: the match at the leftmost position that has
    one. *)
Fixpoint re_search (s : str) : option (str * str) :=
  match match_here s with
  | Some m => Some m
  | None =>
      match s with
      | [] => None
      | _ :: r => re_search r
      end
  end.

(** [extract_repo_info(github_url)]: [(owner, repo)], or [(None, None)]. *)
Definition extract_repo_info (github_url : str) : option str * option str :=
  let github_url := rstrip_chars (lit "/") (strip github_url) in
  match re_search github_url with
  | Some (owner, repo) => (Some owner, Some (replace repo (lit ".git") []))
  | None => (None, None)
  end.

(** ** Exceptions *)

(** The exceptions that the modelled operations raise on a decoded JSON
    value of the wrong type. *)
Inductive exn : Type := TypeError | AttributeError | KeyError.

Inductive outcome (A : Type) : Type :=
| Return (a : A)
| Raise (e : exn).
Arguments Return {A} a.
Arguments Raise {A} e.

#[global] Instance outcome_ret : MRet outcome := fun A a => Return a.
#[global] Instance outcome_bind : MBind outcome := fun A B f m =>
  match m with
  | Return a => f a
  | Raise e => Raise e
  end.

(** ** Python operations on decoded values *)

(** [p in s] for two strings. *)
Fixpoint has_infix (s p : str) : bool :=
  startswith s p ||
  match s with
  | [] => false
  | _ :: r => has_infix r p
  end.

(** [v == s] for a decoded value [v] and a string [s]. *)
Definition json_eq_str (v : json) (s : str) : bool :=
  match v with
  | JString t => str_eqb t s
  | _ => false
  end.

(** [key in data]: a dictionary looks the key up, a list compares it with
    each element, a string searches for it; the other values are not
    containers. *)
Definition py_contains (key : str) (data : json) : outcome bool :=
  match data with
  | JObject m => Return (bool_decide (is_Some (m !! key)))
  | JArray l => Return (existsb (fun v => json_eq_str v key) l)
  | JString s => Return (has_infix s key)
  | JNull | JBool _ | JNumber _ => Raise TypeError
  end.

(** [data[key] = v] for a string [key]. *)
Definition py_setitem (data : json) (key : str) (v : json) : outcome json :=
  match data with
  | JObject m => Return (JObject (<[key := v]> m))
  | _ => Raise TypeError
  end.

(** [data[key]] for a string [key]. *)
Definition py_getitem (data : json) (key : str) : outcome json :=
  match data with
  | JObject m =>
      match m !! key with
      | Some v => Return v
      | None => Raise KeyError
      end
  | _ => Raise TypeError
  end.

(** The receiver of a [str] method such as [.replace]: only a string has
    it. *)
Definition py_str_method (v : json) : outcome str :=
  match v with
  | JString s => Return s
  | _ => Raise AttributeError
  end.

(** The items of [', '.join(items)], which must all be strings. *)
Fixpoint py_join_items (items : list json) : outcome (list str) :=
  match items with
  | [] => Return []
  | JString s :: rest => parts ← py_join_items rest; Return (s :: parts)
  | _ :: _ => Raise TypeError
  end.

(** ** The response normalizer *)

Definition default_keys : list str :=
  [lit "tech_stack"; lit "project_type"; lit "architecture_mermaid";
   lit "architecture_description"; lit "what_it_does"; lit "recruiter_summary"].

Definition fence : str := lit "```".

(** Lines 314-322: the text that [parse_analysis] hands to [json.loads]. *)
Definition clean_text (analysis_text : str) : str :=
  let cleaned_text := strip analysis_text in
  let cleaned_text :=
    if startswith cleaned_text (lit "```json")
    then slice_from 7 cleaned_text else cleaned_text in
  let cleaned_text :=
    if startswith cleaned_text fence
    then slice_from 3 cleaned_text else cleaned_text in
  let cleaned_text :=
    if endswith cleaned_text fence
    then slice_to_neg 3 cleaned_text else cleaned_text in
  strip cleaned_text.

(** Lines 329-334: the loop over [default_keys]. *)
Fixpoint fill_defaults (keys : list str) (data : json) : outcome json :=
  match keys with
  | [] => Return data
  | key :: rest =>
      present ← py_contains key data;
      data ← (if negb present
              then if str_eqb key (lit "architecture_mermaid")
                   then py_setitem data key (JString [])
                   else py_setitem data key (JString (lit "Not available"))
              else Return data);
      fill_defaults rest data
  end.

(** Lines 337-347: the repair of the diagram text. *)
Definition repair_mermaid (unicode_lower : str -> str) (data : json)
  : outcome json :=
  mermaid_code ← py_getitem data (lit "architecture_mermaid");
  mermaid_code ← py_str_method mermaid_code;
  let mermaid_code :=
    replace (replace mermaid_code (lit "```mermaid") []) fence [] in
  let mermaid_code := strip mermaid_code in
  let mermaid_code :=
    if negb (str_eqb mermaid_code []) && negb (startswith mermaid_code (lit "graph"))
    then lit "graph TD;" ++ [10%N] ++ mermaid_code
    else mermaid_code in
  data ← py_setitem data (lit "architecture_mermaid") (JString mermaid_code);
  if str_eqb (lower unicode_lower mermaid_code) (lit "not available")
  then py_setitem data (lit "architecture_mermaid") (JString [])
  else Return data.

(** Lines 349-350: a list of technologies becomes one string. *)
Definition join_tech_stack (data : json) : outcome json :=
  tech_stack ← py_getitem data (lit "tech_stack");
  match tech_stack with
  | JArray items =>
      parts ← py_join_items items;
      py_setitem data (lit "tech_stack") (JString (join (lit ", ") parts))
  | _ => Return data
  end.

(** Lines 355-362: the record returned on [JSONDecodeError]. *)
Definition error_record (analysis_text : str) : gmap str json :=
  let e := JString (lit "Error parsing analysis") in
  <[lit "tech_stack" := e]>
  (<[lit "project_type" := e]>
  (<[lit "architecture_mermaid" := JString []]>
  (<[lit "architecture_description" := e]>
  (<[lit "what_it_does" := e]>
  (<[lit "recruiter_summary" :=
       JString (lit "Error parsing analysis: "
                ++ slice_to 100 analysis_text ++ lit "...")]> ∅))))).

(** [parse_analysis(analysis_text)].  Only [JSONDecodeError] is caught; any
    other exception of the body leaves the function. *)
Definition parse_analysis (unicode_lower : str -> str) (analysis_text : str)
  : outcome json :=
  match json_loads (clean_text analysis_text) with
  | None => Return (JObject (error_record analysis_text))
  | Some data =>
      data ← fill_defaults default_keys data;
      present ← py_contains (lit "architecture_mermaid") data;
      data ← (if present : bool then repair_mermaid unicode_lower data else Return data);
      join_tech_stack data
  end.

(** The field [key] of the record that [parse_analysis] returned, if it
    returned one. *)
Definition field (r : outcome json) (key : str) : option json :=
  match r with
  | Return (JObject m) => m !! key
  | _ => None
  end.

(** ** The network *)

Module Net.

(** What [response.json()] gives: the decoded body, or the
    [requests.exceptions.JSONDecodeError] it raises, with its message (a
    [RequestException], as in requests 2.27 and later). *)
Inductive decoded : Type :=
| Decoded (v : json)
| Undecodable (msg : str).

(** The parts of a [requests.Response] that the program reads.  [headers]
    is keyed by the header names the program asks for. *)
Record response : Type := {
  status_code : Z;
  headers : gmap str str;
  text : str;
  json_body : decoded
}.

(** What [requests.get] does: it raises [requests.exceptions.Timeout], it
    raises another [RequestException] (whose [str(e)] is [msg]), or it
    returns a response. *)
Inductive http_outcome : Type :=
| Timeout
| RequestException (msg : str)
| Responded (r : response).

(** The addresses the program requests, by the values formatted into
    them.  The headers sent along ([get_github_headers]) are not modelled:
    what a request returns is for the [world] to say. *)
Inductive request : Type :=
| RepoUrl (owner repo : str)
| ReadmeUrl (owner repo : str)
| ContentsUrl (owner repo : str)
| LanguagesUrl (owner repo : str)
| RawUrl (owner repo branch : str) (path : json).

(** The outcome of the n-th request of a run, for each address. *)
Definition world : Type := nat -> request -> http_outcome.

End Net.
Import Net.

(** [data.get(key, default)]: only a dictionary has the method. *)
Definition py_get (data : json) (key : str) (dflt : json) : outcome json :=
  match data with
  | JObject m => Return (default dflt (m !! key))
  | _ => Raise AttributeError
  end.

(** [for item in contents]: the elements of a list, the keys of a
    dictionary, the characters of a string; the other values are not
    iterable.  (The order of the keys does not matter to the program: a key
    is a string, on which its first operation raises.) *)
Definition py_iter (contents : json) : outcome (list json) :=
  match contents with
  | JArray items => Return items
  | JObject m => Return (map (fun kv => JString kv.1) (map_to_list m))
  | JString s => Return (map (fun c => JString [c]) s)
  | JNull | JBool _ | JNumber _ => Raise TypeError
  end.

(** [str(n)] for an integer. *)
Definition str_of_int (n : Z) : str :=
  lit (DecimalString.NilZero.string_of_int (Z.to_int n)).

(** ** The remote-metadata client *)

Definition IGNORE_FOLDERS : list str :=
  [lit "node_modules"; lit "venv"; lit ".git"; lit "dist"; lit "build";
   lit "__pycache__"; lit ".venv"; lit "env"; lit ".env"; lit ".idea";
   lit ".vscode"; lit "vendor"; lit "target"; lit ".gradle"; lit "bin";
   lit "obj"].

Definition DEPENDENCY_FILES : list str :=
  [lit "requirements.txt"; lit "pyproject.toml"; lit "setup.py"; lit "Pipfile";
   lit "package.json"; lit "package-lock.json"; lit "yarn.lock";
   lit "pom.xml"; lit "build.gradle"; lit "build.gradle.kts";
   lit "go.mod"; lit "go.sum";
   lit "Cargo.toml"; lit "Gemfile"; lit "composer.json";
   lit "Makefile"; lit "Dockerfile"; lit "docker-compose.yml";
   lit "docker-compose.yaml"].

(** An element of [structure]: the dictionary with the keys [name], [type]
    and [path] that [fetch_repo_structure] builds. *)
Record entry : Type := {
  name : str;
  type : json;
  path : json
}.

(** The payload of [fetch_github_data]. *)
Record repo_data : Type := {
  readme : option str;
  structure : list entry;
  dependencies : gmap str str;
  languages_stats : json;
  description : json;
  language : json;
  topics : json;
  stars : json;
  forks : json
}.

(** [x in xs] for a string and a list (or set) of strings. *)
Definition str_in (x : str) (xs : list str) : bool := existsb (str_eqb x) xs.

Section Client.

(** The case tables behind [str.lower] (see [lower]). *)
Variable unicode_lower : str -> str.

(** [base64.b64decode(content).decode('utf-8', errors='ignore')], which
    comes from the standard library: the decoded text, or [None] when
    [b64decode] raises. *)
Variable b64decode_utf8 : str -> option str.

(** [os.getenv('GITHUB_TOKEN', '')], read once at start-up. *)
Variable GITHUB_TOKEN : str.

Variable w : world.

(** [name.lower() in {f.lower() for f in IGNORE_FOLDERS}] *)
Definition ignored (name : str) : bool :=
  str_in (lower unicode_lower name) (map (lower unicode_lower) IGNORE_FOLDERS).

(** The key of [structure.sort]. *)
Definition sort_key (x : entry) : nat * str :=
  (if json_eq_str (type x) (lit "dir") then 0 else 1,
   lower unicode_lower (name x)).

(** [a <= b] on keys: tuples compare by their first component, then by
    their second. *)
Definition key_leb (a b : nat * str) : bool :=
  (a.1 <? b.1) || ((a.1 =? b.1) && str_leb a.2 b.2).

(** [list.sort(key=...)] is stable; so is insertion from the right. *)
Fixpoint insert_sorted (x : entry) (l : list entry) : list entry :=
  match l with
  | [] => [x]
  | y :: l' =>
      if key_leb (sort_key x) (sort_key y)
      then x :: y :: l'
      else y :: insert_sorted x l'
  end.

Definition sort_structure (l : list entry) : list entry :=
  foldr insert_sorted [] l.

(** The body of the loop of [fetch_repo_structure]: the entries kept so
    far, in order. *)
Fixpoint collect_entries (items : list json) (structure : list entry)
  : outcome (list entry) :=
  match items with
  | [] => Return structure
  | item :: rest =>
      name ← py_get item (lit "name") (JString []);
      item_type ← py_get item (lit "type") (JString []);
      name_text ← py_str_method name;
      if ignored name_text
      then collect_entries rest structure
      else
        path ← py_get item (lit "path") name;
        collect_entries rest
          (structure ++ [{| name := name_text; type := item_type; path := path |}])
  end.

(** [fetch_repo_structure(owner, repo, headers)] as the [n]-th request. *)
Definition fetch_repo_structure (n : nat) (owner repo : str) : list entry :=
  match w n (ContentsUrl owner repo) with
  | Responded response =>
      if (status_code response =? 200)%Z then
        match json_body response with
        | Decoded contents =>
            match (items ← py_iter contents; collect_entries items []) with
            | Return structure => sort_structure structure
            | Raise _ => []
            end
        | Undecodable _ => []
        end
      else []
  | Timeout | RequestException _ => []
  end.

(** [fetch_readme(owner, repo, headers)] as the [n]-th request.  A
    [content] that is not a string gives [None] like an empty one: either it
    is false in the test, or [b64decode] raises [TypeError] on it and the
    [except] clause returns [None]. *)
Definition fetch_readme (n : nat) (owner repo : str) : option str :=
  match w n (ReadmeUrl owner repo) with
  | Responded response =>
      if (status_code response =? 200)%Z then
        match json_body response with
        | Decoded readme_data =>
            match
              (content ← py_get readme_data (lit "content") (JString []);
               encoding ← py_get readme_data (lit "encoding") (JString (lit "base64"));
               Return (content, encoding))
            with
            | Return (JString content, encoding) =>
                if json_eq_str encoding (lit "base64") && negb (str_eqb content [])
                then
                  match b64decode_utf8 content with
                  | Some decoded => Some (slice_to 8000 decoded)
                  | None => None
                  end
                else None
            | Return (_, _) => None
            | Raise _ => None
            end
        | Undecodable _ => None
        end
      else None
  | Timeout | RequestException _ => None
  end.

(** The loop over [['main', 'master']] for one file, from request [n]
    on: the content found, and the number of the next request. *)
Fixpoint fetch_from_branches (n : nat) (owner repo : str) (item : entry)
    (branches : list str) : option str * nat :=
  match branches with
  | [] => (None, n)
  | branch :: rest =>
      match w n (RawUrl owner repo branch (path item)) with
      | Responded response =>
          if (status_code response =? 200)%Z
          then (Some (slice_to 4000 (text response)), S n)
          else fetch_from_branches (S n) owner repo item rest
      | Timeout | RequestException _ =>
          fetch_from_branches (S n) owner repo item rest
      end
  end.

(** [fetch_dependency_files(owner, repo, headers, structure)] from
    request [n] on. *)
Fixpoint fetch_dependency_files (n : nat) (owner repo : str)
    (structure : list entry) (dependencies : gmap str str)
  : gmap str str * nat :=
  match structure with
  | [] => (dependencies, n)
  | item :: rest =>
      if json_eq_str (type item) (lit "file") && str_in (name item) DEPENDENCY_FILES
      then
        match fetch_from_branches n owner repo item [lit "main"; lit "master"] with
        | (Some content, n') =>
            fetch_dependency_files n' owner repo rest
              (<[name item := content]> dependencies)
        | (None, n') => fetch_dependency_files n' owner repo rest dependencies
        end
      else fetch_dependency_files n owner repo rest dependencies
  end.

(** The language statistics of [fetch_github_data], as the [n]-th
    request. *)
Definition fetch_languages (n : nat) (owner repo : str) : json :=
  match w n (LanguagesUrl owner repo) with
  | Responded lang_response =>
      if (status_code lang_response =? 200)%Z then
        match json_body lang_response with
        | Decoded languages => languages
        | Undecodable _ => JObject ∅
        end
      else JObject ∅
  | Timeout | RequestException _ => JObject ∅
  end.

Definition rate_limit_message : str :=
  let error_msg := lit "GitHub API rate limit exceeded." ++ [10%N; 10%N] in
  if str_eqb GITHUB_TOKEN []
  then error_msg
       ++ [0x1F4A1%N]
       ++ lit " TIP: Add a GitHub token to your .env file to get 5000 requests/hour instead of 60."
       ++ [10%N]
       ++ lit "Get one at: https://github.com/settings/tokens"
  else error_msg ++ lit "Please wait a few minutes and try again.".

(** [fetch_github_data(owner, repo)]: the payload or an error message.
    The requests of a run are numbered from 0. *)
Definition fetch_github_data (owner repo : str)
  : outcome (option repo_data * option str) :=
  match w 0 (RepoUrl owner repo) with
  | Timeout => Return (None, Some (lit "Request timed out. Please try again."))
  | RequestException e => Return (None, Some (lit "Network error: " ++ e))
  | Responded response =>
      let remaining :=
        default (lit "unknown") (headers response !! lit "X-RateLimit-Remaining") in
      if (status_code response =? 404)%Z then
        Return (None, Some (lit "Repository '" ++ owner ++ lit "/" ++ repo
                            ++ lit "' not found. Make sure it exists and is public."))
      else if (status_code response =? 403)%Z then
        if str_eqb remaining (lit "0")
        then Return (None, Some rate_limit_message)
        else Return (None, Some (lit "Access forbidden. The repository might be private."))
      else if negb (status_code response =? 200)%Z then
        Return (None, Some (lit "GitHub API error (Status: "
                            ++ str_of_int (status_code response) ++ lit ")"))
      else
        match json_body response with
        | Undecodable e => Return (None, Some (lit "Network error: " ++ e))
        | Decoded repo_info =>
            let readme := fetch_readme 1 owner repo in
            let structure := fetch_repo_structure 2 owner repo in
            let '(dependencies, n) :=
              fetch_dependency_files 3 owner repo structure ∅ in
            let languages := fetch_languages n owner repo in
            description ← py_get repo_info (lit "description") (JString []);
            language ← py_get repo_info (lit "language") (JString []);
            topics ← py_get repo_info (lit "topics") (JArray []);
            stars ← py_get repo_info (lit "stargazers_count") (JNumber (lit "0"));
            forks ← py_get repo_info (lit "forks_count") (JNumber (lit "0"));
            Return (Some {| readme := readme;
                            structure := structure;
                            dependencies := dependencies;
                            languages_stats := languages;
                            description := description;
                            language := language;
                            topics := topics;
                            stars := stars;
                            forks := forks |},
                    None)
        end
  end.

End Client.

(** ** Auxiliary definitions for the statements *)

(** [j] between a leading fence marker with the language tag [tag] and a
    trailing fence marker; [ws1] and [ws2] are the white space (a line
    break, usually) between the markers and [j]. *)
Definition fenced (tag ws1 j ws2 : str) : str :=
  fence ++ tag ++ ws1 ++ j ++ ws2 ++ fence.

(** The value that [parse_analysis] substitutes for an absent [key]. *)
Definition default_for (key : str) : json :=
  if str_eqb key (lit "architecture_mermaid")
  then JString []
  else JString (lit "Not available").

(** The dictionary after the loop over [keys]. *)
Fixpoint fill_map (keys : list str) (m : gmap str json) : gmap str json :=
  match keys with
  | [] => m
  | key :: rest =>
      fill_map rest
        (match m !! key with
         | Some _ => m
         | None => <[key := default_for key]> m
         end)
  end.

(** A list of strings. *)
Definition all_strings (items : list json) : bool :=
  forallb (fun v => match v with JString _ => true | _ => false end) items.

(** Case tables for evaluating closed examples: [lower] consults them on
    a string with a character outside ASCII only. *)
Definition no_case_tables : str -> str := fun s => s.

(** A directory, as the sort key tells it. *)
Definition is_dir (e : entry) : bool := json_eq_str (type e) (lit "dir").

(** [before a b]: [a] may come before [b] in a listing that has the
    directories first and, among directories and among the others, the
    names in the order of their lower-case forms. *)
Definition before (unicode_lower : str -> str) (a b : entry) : Prop :=
  (is_dir a = true /\ is_dir b = false) \/
  (is_dir a = is_dir b /\
   str_leb (lower unicode_lower (name a)) (lower unicode_lower (name b)) = true).

(** The entry that [fetch_repo_structure] builds from an item of the
    listing whose name is a string (or absent). *)
Definition entry_of (item : gmap str json) : entry :=
  let name :=
    match item !! lit "name" with
    | Some (JString s) => s
    | _ => []
    end in
  {| name := name;
     type := default (JString []) (item !! lit "type");
     path := default (JString name) (item !! lit "path") |}.

Definition named (item : gmap str json) : Prop :=
  item !! lit "name" = None \/ exists s, item !! lit "name" = Some (JString s).


(** A request for a JSON document that failed: as above, or the exception
    of [response.json()] on a body that is not JSON. *)
Definition failed_json (o : http_outcome) : Prop :=
  match o with
  | Responded r =>
      status_code r <> 200%Z \/ exists msg, json_body r = Undecodable msg
  | Timeout | RequestException _ => True
  end.

(** The order of the sort keys, and the entries that the loop keeps. *)
Definition key_le (unicode_lower : str -> str) (a b : entry) : Prop :=
  key_leb (sort_key unicode_lower a) (sort_key unicode_lower b) = true.

Definition kept (unicode_lower : str -> str) (e : entry) : bool :=
  negb (ignored unicode_lower (name e)).

(** [excluded e]: the name of [e] is, letter case apart, a name of the
    fixed ignore set.  This is the exclusion in the words of the
    specification; [ignored] is the test that the code makes. *)
Definition excluded (unicode_lower : str -> str) (e : entry) : bool :=
  existsb
    (fun folder =>
       str_eqb (lower unicode_lower (name e)) (lower unicode_lower folder))
    IGNORE_FOLDERS.

(** [consumed s rest]: [rest] is what follows a non-empty part of [s] whose
    last character is not a backtick.  Every scanning function of the
    decoder leaves its input this way. *)
Definition consumed (s rest : str) : Prop :=
  exists pre c, s = pre ++ c :: rest /\ c <> 96%N.

(** A text without a backtick. *)
Definition plain (l : str) : bool := forallb (fun c => negb (c =? 96)%N) l.

(** [reaches s r]: [r] is what is left of [s] after some characters. *)
Definition reaches (s r : str) : Prop := exists pre, s = pre ++ r.

(** The optional parts of the pattern that may come before the host
    name. *)
Definition optional_prefixes : list str :=
  [[]; lit "www."; lit "http://"; lit "http://www.";
   lit "https://"; lit "https://www."].

(** ** Worlds and inputs for the examples *)

(** A world in which every request times out. *)
Definition w_down : world := fun _ _ => Timeout.

Definition ok_response (body : json) : response :=
  {| status_code := 200; headers := ∅; text := []; json_body := Decoded body |}.


(** A world in which the repository request is answered 403 with the
    given value of [X-RateLimit-Remaining]. *)
Definition w_forbidden (remaining : str) : world := fun _ _ =>
  Responded {| status_code := 403;
               headers := {[ lit "X-RateLimit-Remaining" := remaining ]};
               text := [];
               json_body := Undecodable [] |}.

Definition listing_item (name type : string) : gmap str json :=
  <[lit "name" := JString (lit name)]>
  (<[lit "type" := JString (lit type)]>
  (<[lit "path" := JString (lit name)]> ∅)).

Definition sample_items : list (gmap str json) :=
  [listing_item "setup.py" "file"; listing_item "Node_Modules" "dir";
   listing_item "src" "dir"; listing_item "README.md" "file";
   listing_item "Docs" "dir"; listing_item ".GIT" "dir"].

(** A world that answers every request with the sample listing. *)
Definition w_listing : world := fun _ _ =>
  Responded (ok_response (JArray (map JObject sample_items))).

Definition no_b64 : str -> option str := fun _ => None.

(** ** The rate-limit probe, the generation call and the analyze route *)

(** The dictionary that [check_rate_limit()] returns. *)
Record rate_info := { limit : json; remaining : json; reset_time : json }.

(** [check_rate_limit()], given what its one request does.  Whatever is
    raised inside the [try] is swallowed, and the result is then [None]. *)
Definition check_rate_limit (o : http_outcome) : option rate_info :=
  match o with
  | Responded response =>
      if (status_code response =? 200)%Z then
        match json_body response with
        | Decoded data =>
            match
              (resources ← py_get data (lit "resources") (JObject ∅);
               core ← py_get resources (lit "core") (JObject ∅);
               limit ← py_get core (lit "limit") (JNumber (lit "0"));
               remaining ← py_get core (lit "remaining") (JNumber (lit "0"));
               reset ← py_get core (lit "reset") (JNumber (lit "0"));
               Return {| limit := limit; remaining := remaining;
                         reset_time := reset |})
            with
            | Return info => Some info
            | Raise _ => None
            end
        | Undecodable _ => None
        end
      else None
  | Timeout | RequestException _ => None
  end.

(** The dictionary [core] of a decoded rate-limit document, when the two
    [.get] of [check_rate_limit] find one: an absent key gives the empty
    dictionary, a value that is not a dictionary has no [.get]. *)
Definition rate_core (data : gmap str json) : option (gmap str json) :=
  match data !! lit "resources" with
  | None => Some ∅
  | Some (JObject resources) =>
      match resources !! lit "core" with
      | None => Some ∅
      | Some (JObject core) => Some core
      | Some _ => None
      end
  | Some _ => None
  end.

(** [len(v) > 0] and then [v[0]]: the first item of a value that has a
    length, [None] when that length is 0.  A dictionary decoded from JSON
    has no key [0]. *)
Definition first_item (v : json) : outcome (option json) :=
  match v with
  | JArray [] => Return None
  | JArray (item :: _) => Return (Some item)
  | JString [] => Return None
  | JString (c :: _) => Return (Some (JString [c]))
  | JObject m => if decide (size m = 0) then Return None else Raise KeyError
  | JNull | JBool _ | JNumber _ => Raise TypeError
  end.

(** The nested tests of [call_gemini_api] on the decoded body of an answer
    200: the text of the first part of the first candidate, or [None] when
    a test fails and the function falls through to its message about the
    format. *)
Definition candidate_text (result : json) : outcome (option json) :=
  has_candidates ← py_contains (lit "candidates") result;
  if has_candidates : bool then
    candidates ← py_getitem result (lit "candidates");
    first ← first_item candidates;
    match first with
    | None => Return None
    | Some candidate =>
        has_content ← py_contains (lit "content") candidate;
        if has_content : bool then
          content ← py_getitem candidate (lit "content");
          has_parts ← py_contains (lit "parts") content;
          if has_parts : bool then
            parts ← py_getitem content (lit "parts");
            first_part ← first_item parts;
            match first_part with
            | None => Return None
            | Some part =>
                has_text ← py_contains (lit "text") part;
                if has_text : bool then
                  text ← py_getitem part (lit "text");
                  Return (Some text)
                else Return None
            end
          else Return None
        else Return None
    end
  else Return None.

Section Generation.

(** [str(e)] for the exception that the processing of an answer raised,
    and [str(v)] for the [message] of an error body that is not a string:
    texts of the interpreter, functions of the answer. *)
Variable exception_text : response -> str.
Variable message_text : response -> str.

(** [call_gemini_api(prompt)], given what its request does: the text (a
    decoded value) or [None], here [JNull], and the error message or
    [None]. *)
Definition call_gemini_api (o : http_outcome) : json * option str :=
  match o with
  | Timeout =>
      (JNull, Some (lit "Gemini API request timed out. Please try again."))
  | RequestException e =>
      (JNull, Some (lit "Network error calling Gemini API: " ++ e))
  | Responded response =>
      match json_body response with
      | Undecodable e =>
          (JNull, Some (lit "Network error calling Gemini API: " ++ e))
      | Decoded result =>
          if (status_code response =? 200)%Z then
            match candidate_text result with
            | Return (Some text) => (text, None)
            | Return None =>
                (JNull, Some (lit "Unexpected response format from Gemini API"))
            | Raise _ =>
                (JNull, Some (lit "Error processing Gemini response: "
                              ++ exception_text response))
            end
          else
            match
              (error ← py_get result (lit "error") (JObject ∅);
               py_get error (lit "message") (JString (lit "Unknown error")))
            with
            | Return (JString error_msg) =>
                (JNull, Some (lit "Gemini API error: " ++ error_msg))
            | Return _ =>
                (JNull, Some (lit "Gemini API error: " ++ message_text response))
            | Raise _ =>
                (JNull, Some (lit "Error processing Gemini response: "
                              ++ exception_text response))
            end
      end
  end.

(** The templates that the analyze route renders, with their arguments. *)
Inductive template : Type :=
| error_html (error error_type : str)
| results_html (owner repo github_url : str) (sections : json)
    (repo_data : repo_data).

Variable unicode_lower : str -> str.
Variable b64decode_utf8 : str -> option str.
Variable GITHUB_TOKEN : str.
Variable w : world.

(** What [generate_analysis] does in this run up to the answer to its
    request: the exception that building the prompt raised, or what the
    request did.  The text of the prompt is not modelled. *)
Variable prompted : repo_data -> str -> str -> outcome http_outcome.

Definition generate_analysis (repo_data : repo_data) (owner repo : str)
  : outcome (json * option str) :=
  o ← prompted repo_data owner repo; Return (call_gemini_api o).

(** [analyze()], given the field [github_url] of the form, if any.  A
    string is false when it is empty or [None]. *)
Definition analyze (form_github_url : option str) : outcome template :=
  let github_url := strip (default [] form_github_url) in
  if str_eqb github_url [] then
    Return (error_html (lit "Please enter a GitHub repository URL.")
                       (lit "validation"))
  else
    match extract_repo_info github_url with
    | (Some ((_ :: _) as owner), Some ((_ :: _) as repo)) =>
        fetched ← fetch_github_data unicode_lower b64decode_utf8 GITHUB_TOKEN w
                    owner repo;
        match fetched with
        | (_, Some ((_ :: _) as fetch_error)) =>
            Return (error_html fetch_error (lit "github"))
        | (None, _) => Raise AttributeError
        | (Some repo_data, _) =>
            generated ← generate_analysis repo_data owner repo;
            match generated with
            | (_, Some ((_ :: _) as gemini_error)) =>
                Return (error_html gemini_error (lit "gemini"))
            | (JString analysis_text, _) =>
                sections ← parse_analysis unicode_lower analysis_text;
                Return (results_html owner repo
                          (lit "https://github.com/" ++ owner ++ lit "/" ++ repo)
                          sections repo_data)
            | (_, _) => Raise AttributeError
            end
        end
    | (_, _) =>
        Return (error_html
                  (lit "Invalid GitHub URL format. Please use a URL like: https://github.com/username/repository")
                  (lit "validation"))
    end.

End Generation.

(** The field of the form names a repository: [extract_repo_info] finds an
    owner and a repository name that is not empty. *)
Definition names (form_github_url : option str) (owner repo : str) : Prop :=
  extract_repo_info (default [] form_github_url) = (Some owner, Some repo) /\
  repo <> [].

(** ** Further worlds and inputs *)

(** A world in which the repository has a README, a listing with one
    recognized file and one directory, raw files that read [flask], and no
    language statistics. *)
Definition w_full : world := fun _ req =>
  match req with
  | RepoUrl _ _ => Responded (ok_response (JObject ∅))
  | ReadmeUrl _ _ =>
      Responded (ok_response (JObject {[ lit "content" := JString (lit "aGk=") ]}))
  | ContentsUrl _ _ =>
      Responded (ok_response (JArray [JObject (listing_item "setup.py" "file");
                                      JObject (listing_item "src" "dir")]))
  | LanguagesUrl _ _ => Timeout
  | RawUrl _ _ _ _ =>
      Responded {| status_code := 200; headers := ∅; text := lit "flask";
                   json_body := Undecodable [] |}
  end.

(** A world that answers every request with an empty list. *)
Definition w_list : world := fun _ _ => Responded (ok_response (JArray [])).

(** A decoder that reads every content as [hi]. *)
Definition b64_hi : str -> option str := fun _ => Some (lit "hi").

(** The body of a generation answer that carries [text]. *)
Definition envelope (text : json) : json :=
  JObject {[ lit "candidates" :=
    JArray [JObject {[ lit "content" :=
      JObject {[ lit "parts" := JArray [JObject {[ lit "text" := text ]}] ]} ]}] ]}.

(** A generation request that is always answered with [text]. *)
Definition answers (text : str) : repo_data -> str -> str -> outcome http_outcome :=
  fun _ _ _ => Return (Responded (ok_response (envelope (JString text)))).

Definition no_text : response -> str := fun _ => [].

(** * Facts *)

(** Case analysis on the matches of a hypothesis, one at a time. *)
Ltac break_scan H :=
  repeat (match type of H with
          | context [match ?x with _ => _ end] =>
              first [is_var x; destruct x | destruct x eqn:?]
          end;
          cbv beta match zeta in H;
          try discriminate H).

(** Two different string literals. *)
Ltac lit_neq := let E := fresh in intro E; vm_compute in E; discriminate E.

(** A field of a dictionary built by insertions at literal keys. *)
Ltac lookup_field :=
  repeat first [ rewrite lookup_insert_eq
               | rewrite lookup_insert_ne by lit_neq ].

(** ** Strings *)

Section StringFacts.

Lemma startswith_split (s p : str) :
  startswith s p = true -> s = p ++ skipn (length p) s.
Proof.
  revert s; induction p as [|a p IH]; intros [|b s]; simpl; try easy.
  rewrite andb_true_iff, N.eqb_eq. intros [-> H]. f_equal. auto.
Qed.

Lemma startswith_app (p r : str) : startswith (p ++ r) p = true.
Proof. induction p as [|a p IH]; simpl; [easy|]. rewrite N.eqb_refl. exact IH. Qed.

Lemma startswith_head (s p : str) (a b : N) :
  a <> b -> startswith (b :: s) (a :: p) = false.
Proof. intros H. simpl. apply N.eqb_neq in H. now rewrite H. Qed.

Lemma lstrip_by_split (p : N -> bool) (s : str) :
  exists ws, s = ws ++ lstrip_by p s /\ forallb p ws = true.
Proof.
  induction s as [|c s [ws [E F]]]; simpl.
  - now exists [].
  - destruct (p c) eqn:Hc.
    + exists (c :: ws). simpl. rewrite Hc, F. split; [now f_equal|easy].
    + now exists [].
Qed.

Lemma lstrip_by_stop (p : N -> bool) (c : N) (s : str) :
  p c = false -> lstrip_by p (c :: s) = c :: s.
Proof. intros H. simpl. now rewrite H. Qed.

Lemma lstrip_by_all (p : N -> bool) (ws s : str) :
  forallb p ws = true -> lstrip_by p (ws ++ s) = lstrip_by p s.
Proof.
  induction ws as [|c ws IH]; simpl; [easy|].
  rewrite andb_true_iff. intros [-> H]. auto.
Qed.

Lemma lstrip_by_idem (p : N -> bool) (s : str) :
  lstrip_by p (lstrip_by p s) = lstrip_by p s.
Proof.
  induction s as [|c s IH]; simpl; [easy|].
  destruct (p c) eqn:Hc; [easy|]. simpl. now rewrite Hc.
Qed.

(** What is left of a text that does not consist of stripped characters
    only starts with a character that is kept. *)
Lemma lstrip_by_head (p : N -> bool) (s : str) (c : N) (r : str) :
  lstrip_by p s = c :: r -> p c = false.
Proof.
  induction s as [|d s IH]; simpl; [easy|].
  destruct (p d) eqn:Hd; [easy|]. now intros [= <- _].
Qed.

Lemma lstrip_by_app_keep (p : N -> bool) (s t : str) :
  lstrip_by p s <> [] -> lstrip_by p (s ++ t) = lstrip_by p s ++ t.
Proof.
  induction s as [|c s IH]; simpl; [easy|].
  destruct (p c); [easy|]. now intros _.
Qed.

Lemma rstrip_by_snoc_drop (p : N -> bool) (s : str) (c : N) :
  p c = true -> rstrip_by p (s ++ [c]) = rstrip_by p s.
Proof.
  intros H. unfold rstrip_by. rewrite rev_app_distr. simpl. now rewrite H.
Qed.

Lemma rstrip_by_snoc_keep (p : N -> bool) (s : str) (c : N) :
  p c = false -> rstrip_by p (s ++ [c]) = s ++ [c].
Proof.
  intros H. unfold rstrip_by. rewrite rev_app_distr. simpl. rewrite H.
  simpl. now rewrite rev_involutive.
Qed.

Lemma rstrip_by_nil (p : N -> bool) : rstrip_by p [] = [].
Proof. reflexivity. Qed.

(** The text after [rstrip] is empty or ends with a character that is
    kept. *)
Lemma rstrip_by_last (p : N -> bool) (s : str) :
  rstrip_by p s = [] \/ exists r c, rstrip_by p s = r ++ [c] /\ p c = false.
Proof.
  unfold rstrip_by. destruct (lstrip_by p (rev s)) as [|c r] eqn:E.
  - now left.
  - right. exists (rev r), c. split; [reflexivity|].
    eapply lstrip_by_head; eauto.
Qed.

Lemma rstrip_by_idem (p : N -> bool) (s : str) :
  rstrip_by p (rstrip_by p s) = rstrip_by p s.
Proof.
  unfold rstrip_by. rewrite rev_involutive. now rewrite lstrip_by_idem.
Qed.

(** [rstrip] keeps the first character of what it leaves. *)
Lemma rstrip_by_cons (p : N -> bool) (c : N) (s : str) :
  p c = false -> exists r, rstrip_by p (c :: s) = c :: r.
Proof.
  intros Hc. revert c Hc. induction s as [|d s IH] using rev_ind; intros c Hc.
  - exists []. apply (rstrip_by_snoc_keep p [] c Hc).
  - change (c :: s ++ [d]) with ((c :: s) ++ [d]).
    destruct (p d) eqn:Hd.
    + rewrite rstrip_by_snoc_drop by easy. auto.
    + rewrite rstrip_by_snoc_keep by easy. simpl. eauto.
Qed.

Lemma lstrip_rstrip_fixed (p : N -> bool) (s : str) :
  lstrip_by p (rstrip_by p (lstrip_by p s)) = rstrip_by p (lstrip_by p s).
Proof.
  destruct (lstrip_by p s) as [|c r] eqn:E; [reflexivity|].
  pose proof (lstrip_by_head _ _ _ _ E) as Hc.
  destruct (rstrip_by_cons p c r Hc) as [r' ->]. now apply lstrip_by_stop.
Qed.

Lemma strip_idem (s : str) : strip (strip s) = strip s.
Proof.
  unfold strip. rewrite lstrip_rstrip_fixed. apply rstrip_by_idem.
Qed.

(** A text that starts and ends with characters that are not white space
    is its own [strip]. *)
Lemma strip_fixed (c d : N) (s : str) :
  isspace c = false -> isspace d = false ->
  strip (c :: s ++ [d]) = c :: s ++ [d].
Proof.
  intros Hc Hd. unfold strip. rewrite lstrip_by_stop by easy.
  change (c :: s ++ [d]) with ((c :: s) ++ [d]).
  now apply rstrip_by_snoc_keep.
Qed.

Lemma strip_cons_space (c : N) (s : str) :
  isspace c = true -> strip (c :: s) = strip s.
Proof. intros H. unfold strip. simpl. now rewrite H. Qed.

Lemma strip_snoc_space (s : str) (c : N) :
  isspace c = true -> strip (s ++ [c]) = strip s.
Proof.
  intros H. unfold strip.
  destruct (lstrip_by isspace s) as [|d r] eqn:E.
  - destruct (lstrip_by_split isspace s) as [ws [Es Hws]].
    rewrite E, app_nil_r in Es. subst ws.
    rewrite lstrip_by_all by easy. simpl. now rewrite H.
  - rewrite lstrip_by_app_keep by now rewrite E.
    rewrite E. now apply rstrip_by_snoc_drop.
Qed.

Lemma strip_app_space_l (ws s : str) :
  forallb isspace ws = true -> strip (ws ++ s) = strip s.
Proof. intros H. unfold strip. now rewrite lstrip_by_all. Qed.

Lemma strip_app_space_r (s ws : str) :
  forallb isspace ws = true -> strip (s ++ ws) = strip s.
Proof.
  induction ws as [|c ws IH] using rev_ind; intros H.
  - now rewrite app_nil_r.
  - rewrite forallb_app in H. apply andb_true_iff in H as [Hws Hc].
    cbn in Hc. rewrite andb_true_r in Hc.
    rewrite app_assoc, strip_snoc_space by exact Hc. now apply IH.
Qed.

(** The first character of a text is white space or the first character
    of its [strip]. *)
Lemma strip_first (s : str) (c : N) (r : str) :
  strip s = c :: r ->
  exists d r', s = d :: r' /\ (isspace d = true \/ d = c).
Proof.
  intros H. destruct s as [|d s']; [discriminate H|].
  exists d, s'. split; [reflexivity|].
  destruct (isspace d) eqn:Hd; [now left|right].
  unfold strip in H. rewrite lstrip_by_stop in H by exact Hd.
  destruct (rstrip_by_cons isspace d s' Hd) as [r' E]. rewrite E in H.
  now injection H.
Qed.

End StringFacts.

(** ** The JSON decoder *)

Section ScannerFacts.

Lemma consumed_app (pre s rest : str) :
  consumed s rest -> consumed (pre ++ s) rest.
Proof.
  intros (p & c & -> & Hc). exists (pre ++ p), c. now rewrite <- app_assoc.
Qed.

Lemma consumed_cons (x : N) (s rest : str) :
  consumed s rest -> consumed (x :: s) rest.
Proof. apply (consumed_app [x]). Qed.

Lemma consumed_skip_ws (s rest : str) :
  consumed (skip_ws s) rest -> consumed s rest.
Proof.
  intros H. destruct (lstrip_by_split is_json_ws s) as (ws & E & _).
  rewrite E. now apply consumed_app.
Qed.

Lemma consumed_trans (s r rest : str) :
  consumed s r -> consumed r rest -> consumed s rest.
Proof.
  intros (p & c & -> & _) H.
  apply consumed_app. now apply consumed_cons.
Qed.

Lemma consumed_one (c : N) (rest : str) : c <> 96%N -> consumed (c :: rest) rest.
Proof. intros H. now exists [], c. Qed.

Lemma consumed_length (s rest : str) :
  consumed s rest -> length rest < length s.
Proof. intros (p & c & -> & _). rewrite length_app. simpl. lia. Qed.

Lemma consumed_plain (l rest : str) :
  l <> [] -> plain l = true -> consumed (l ++ rest) rest.
Proof.
  intros Hne Hp. destruct (exists_last Hne) as (p & c & ->).
  exists p, c. split; [now rewrite <- app_assoc|].
  unfold plain in Hp. rewrite forallb_app in Hp. simpl in Hp.
  apply andb_true_iff in Hp as [_ Hp]. rewrite andb_true_r in Hp.
  apply negb_true_iff, N.eqb_neq in Hp. exact Hp.
Qed.

Lemma plain_app (a b : str) : plain a = true -> plain b = true -> plain (a ++ b) = true.
Proof. unfold plain. rewrite forallb_app. now intros -> ->. Qed.

Lemma is_digit_plain (c : N) : is_digit c = true -> negb (c =? 96)%N = true.
Proof.
  unfold is_digit, in_range. rewrite andb_true_iff, !N.leb_le.
  intros [H1 H2]. apply negb_true_iff, N.eqb_neq. lia.
Qed.

Lemma span_digits_spec (s ds rest : str) :
  span_digits s = (ds, rest) -> s = ds ++ rest /\ plain ds = true.
Proof.
  revert ds rest. induction s as [|c s IH]; simpl; intros ds rest.
  - now intros [= <- <-].
  - destruct (is_digit c) eqn:Hc.
    + destruct (span_digits s) as [ds' rest'] eqn:E. intros [= <- <-].
      destruct (IH _ _ eq_refl) as [-> Hp]. split; [easy|].
      simpl. now rewrite is_digit_plain.
    + now intros [= <- <-].
Qed.

Lemma match_integer_spec (s lx rest : str) :
  match_integer s = Some (lx, rest) ->
  s = lx ++ rest /\ lx <> [] /\ plain lx = true.
Proof.
  unfold match_integer.
  assert (Hbody : forall sign s1,
    plain sign = true ->
    match s1 with
    | c :: r =>
        if (c =? chr "0")%N then Some (sign ++ [c], r)
        else if in_range 49 57 c
             then let '(ds, rest) := span_digits r in Some (sign ++ c :: ds, rest)
             else None
    | [] => None
    end = Some (lx, rest) ->
    sign ++ s1 = lx ++ rest /\ lx <> [] /\ plain lx = true).
  { intros sign [|c r] Hs; [easy|].
    destruct (c =? chr "0")%N eqn:H0.
    - intros [= <- <-]. apply N.eqb_eq in H0. subst c.
      rewrite <- app_assoc. split; [easy|]. split; [now destruct sign|].
      now apply plain_app.
    - destruct (in_range 49 57 c) eqn:H1; [|easy].
      destruct (span_digits r) as [ds rest'] eqn:E. intros [= <- <-].
      destruct (span_digits_spec _ _ _ E) as [-> Hp].
      rewrite <- app_assoc. split; [easy|]. split; [now destruct sign|].
      apply plain_app; [easy|]. simpl. rewrite Hp, andb_true_r.
      unfold in_range in H1. apply andb_true_iff in H1 as [H1 H2].
      apply N.leb_le in H1, H2. apply negb_true_iff, N.eqb_neq. lia. }
  destruct s as [|c r].
  - intros H. now apply (Hbody [] []) in H.
  - destruct (c =? chr "-")%N eqn:Hm.
    + apply N.eqb_eq in Hm. subst c. intros H. now apply (Hbody [chr "-"] r) in H.
    + intros H. now apply (Hbody [] (c :: r)) in H.
Qed.

Lemma match_frac_spec (s f rest : str) :
  match_frac s = (f, rest) -> s = f ++ rest /\ plain f = true.
Proof.
  unfold match_frac. destruct s as [|p [|d r]]; try now intros [= <- <-].
  destruct ((p =? chr ".")%N && is_digit d) eqn:H; [|now intros [= <- <-]].
  apply andb_true_iff in H as [Hp Hd]. apply N.eqb_eq in Hp. subst p.
  destruct (span_digits r) as [ds rest'] eqn:E. intros [= <- <-].
  destruct (span_digits_spec _ _ _ E) as [-> Hpl]. split; [easy|].
  simpl. now rewrite is_digit_plain, Hpl.
Qed.

Lemma match_exp_spec (s x rest : str) :
  match_exp s = (x, rest) -> s = x ++ rest /\ plain x = true.
Proof.
  unfold match_exp. destruct s as [|e r]; [now intros [= <- <-]|].
  destruct ((e =? chr "e")%N || (e =? chr "E")%N) eqn:He; [|now intros [= <- <-]].
  assert (Hbody : forall sign r1, plain sign = true ->
    match span_digits r1 with
    | ([], _) => ([], e :: r)
    | (ds, rest) => (e :: sign ++ ds, rest)
    end = (x, rest) -> r = sign ++ r1 ->
    e :: r = x ++ rest /\ plain x = true).
  { intros sign r1 Hs H ->. destruct (span_digits r1) as [[|d ds] rest'] eqn:E.
    - now injection H as <- <-.
    - injection H as <- <-. destruct (span_digits_spec _ _ _ E) as [-> Hp].
      split; [simpl; now rewrite <- app_assoc|].
      change (e :: sign ++ d :: ds) with ([e] ++ sign ++ d :: ds).
      apply plain_app; [|now apply plain_app].
      simpl. rewrite andb_true_r. apply negb_true_iff, N.eqb_neq.
      apply orb_true_iff in He as [He|He]; apply N.eqb_eq in He; now subst e. }
  destruct r as [|g r'].
  - intros H. now apply (Hbody [] []) in H.
  - destruct ((g =? chr "-")%N || (g =? chr "+")%N) eqn:Hg.
    + intros H. apply (Hbody [g] r') in H; [easy| |easy].
      simpl. rewrite andb_true_r. apply negb_true_iff, N.eqb_neq.
      apply orb_true_iff in Hg as [Hg|Hg]; apply N.eqb_eq in Hg; now subst g.
    + intros H. now apply (Hbody [] (g :: r')) in H.
Qed.

Lemma match_number_consumed (s lx rest : str) :
  match_number s = Some (lx, rest) -> consumed s rest.
Proof.
  unfold match_number.
  destruct (match_integer s) as [[i r]|] eqn:Ei; [|easy].
  destruct (match_frac r) as [f r1] eqn:Ef.
  destruct (match_exp r1) as [x r2] eqn:Ex. intros [= <- <-].
  destruct (match_integer_spec _ _ _ Ei) as (-> & Hne & Hi).
  destruct (match_frac_spec _ _ _ Ef) as (-> & Hf).
  destruct (match_exp_spec _ _ _ Ex) as (-> & Hx).
  replace (i ++ (f ++ x ++ r2)) with ((i ++ f ++ x) ++ r2)
    by now rewrite <- !app_assoc.
  apply consumed_plain; [now destruct i|].
  apply plain_app; [easy|]. now apply plain_app.
Qed.

End ScannerFacts.

Section ScanStringFacts.

Lemma scanstring_consumed (n : nat) :
  forall s acc v rest,
    length s <= n -> scanstring s acc = POk v rest -> consumed s rest.
Proof.
  induction n as [|n IH]; intros s acc v rest Hlen H.
  - destruct s; [discriminate H|simpl in Hlen; lia].
  - destruct s as [|c r]; [discriminate H|].
    simpl in H. break_scan H;
      lazymatch type of H with
      | POk _ _ = POk _ _ =>
          injection H as <- <-; apply consumed_one;
          match goal with E : (_ =? c_quote)%N = true |- _ =>
            apply N.eqb_eq in E; subst; discriminate end
      | scanstring ?l _ = POk _ _ =>
          cut (consumed l rest);
          [ intro; repeat (first [assumption | apply consumed_cons])
          | eapply IH; [|exact H]; simpl in Hlen |- *; lia ]
      end.
Qed.

Lemma scanstring_fuel (n : nat) :
  forall s acc, length s <= n -> scanstring s acc <> PFuel.
Proof.
  induction n as [|n IH]; intros s acc Hlen H.
  - destruct s; [discriminate H|simpl in Hlen; lia].
  - destruct s as [|c r]; [discriminate H|].
    simpl in H. break_scan H;
      lazymatch type of H with
      | scanstring ?l _ = PFuel =>
          eapply IH; [|exact H]; simpl in Hlen |- *; lia
      end.
Qed.

End ScanStringFacts.

Section ScanOnceFacts.

#[local] Arguments startswith : simpl never.
#[local] Arguments match_number : simpl never.
#[local] Arguments scanstring : simpl never.
#[local] Arguments skip_ws : simpl never.
#[local] Arguments skipn : simpl never.
#[local] Arguments lit : simpl never.

Lemma reaches_refl (s : str) : reaches s s.
Proof. now exists []. Qed.

Lemma reaches_cons (c : N) (s r : str) : reaches s r -> reaches (c :: s) r.
Proof. intros [p ->]. now exists (c :: p). Qed.

Lemma reaches_skip (s x r : str) : skip_ws s = x -> reaches x r -> reaches s r.
Proof.
  intros <- [p E]. destruct (lstrip_by_split is_json_ws s) as (ws & Es & _).
  exists (ws ++ p). rewrite <- app_assoc, <- E. exact Es.
Qed.

Lemma reaches_skip_ws (s r : str) : reaches (skip_ws s) r -> reaches s r.
Proof. now apply reaches_skip. Qed.

Lemma reaches_consumed (s x r : str) : consumed s x -> reaches x r -> reaches s r.
Proof.
  intros (p & c & -> & _) [q ->]. exists (p ++ c :: q).
  now rewrite <- app_assoc.
Qed.

Lemma reaches_length (s r : str) : reaches s r -> length r <= length s.
Proof. intros [p ->]. rewrite length_app. lia. Qed.

Lemma consumed_reached (s x rest : str) :
  reaches s x -> consumed x rest -> consumed s rest.
Proof. intros [p ->]. apply consumed_app. Qed.

Lemma startswith_consumed (s p : str) :
  p <> [] -> plain p = true -> startswith s p = true ->
  consumed s (skipn (length p) s).
Proof.
  intros Hne Hp H. rewrite (startswith_split s p H) at 1.
  now apply consumed_plain.
Qed.

Lemma skip_ws_length (s x : str) : skip_ws s = x -> length x <= length s.
Proof. intros H. apply reaches_length. eapply reaches_skip; [exact H|apply reaches_refl]. Qed.

Create HintDb scan.
#[local] Hint Resolve reaches_refl reaches_cons : scan.
#[local] Hint Extern 1 (reaches ?s _) =>
  match goal with
  | H : skip_ws s = _ |- _ => apply (reaches_skip _ _ _ H)
  | H : consumed s _ |- _ => apply (reaches_consumed _ _ _ H)
  | H : consumed (skip_ws s) _ |- _ => apply reaches_skip_ws
  end : scan.

Ltac not_backtick :=
  match goal with
  | E : (?d =? _)%N = true |- ?d <> _ =>
      apply N.eqb_eq in E; rewrite E; discriminate
  end.

Ltac finish_char :=
  match goal with
  | E : skip_ws _ = ?d :: ?l |- consumed _ ?l =>
      apply (consumed_reached _ (d :: l));
      [eauto 12 with scan | apply consumed_one; not_backtick]
  end.

Ltac known_string :=
  repeat match goal with
  | H : scanstring ?r ?a = POk _ ?x |- _ =>
      apply (scanstring_consumed _ _ _ _ _ (le_n _)) in H
  end.

(** Each scanning function consumes a non-empty part of its input that does
    not end with a backtick. *)
Lemma scan_consumed (fuel : nat) :
  (forall s v rest, scan_once fuel s = POk v rest -> consumed s rest) /\
  (forall s acc v rest, array_items fuel s acc = POk v rest -> consumed s rest) /\
  (forall s acc v rest, object_members fuel s acc = POk v rest -> consumed s rest).
Proof.
  induction fuel as [|fuel (IHs & IHa & IHo)].
  - repeat split; intros; discriminate.
  - repeat split.
    + intros s v rest H. destruct s as [|c r]; [discriminate H|].
      simpl in H. break_scan H; try (injection H as <- <-); known_string.
      * now apply consumed_cons.
      * finish_char.
      * apply IHo in H. eapply consumed_reached; [|exact H]. eauto with scan.
      * finish_char.
      * apply IHa in H. eapply consumed_reached; [|exact H]. eauto with scan.
      * now apply (startswith_consumed (c :: r) (lit "null")).
      * now apply (startswith_consumed (c :: r) (lit "true")).
      * now apply (startswith_consumed (c :: r) (lit "false")).
      * eapply match_number_consumed; eauto.
      * now apply (startswith_consumed (c :: r) (lit "NaN")).
      * now apply (startswith_consumed (c :: r) (lit "Infinity")).
      * now apply (startswith_consumed (c :: r) (lit "-Infinity")).
    + intros s acc v rest H. simpl in H.
      break_scan H; try (injection H as <- <-).
      * match goal with E : scan_once _ _ = _ |- _ => apply IHs in E end.
        finish_char.
      * match goal with E : scan_once _ _ = _ |- _ => apply IHs in E end.
        apply IHa in H. eapply consumed_reached; [|exact H]. eauto 10 with scan.
    + intros s acc v rest H. simpl in H.
      break_scan H; try (injection H as <- <-); known_string.
      * match goal with E : scan_once _ _ = _ |- _ => apply IHs in E end.
        finish_char.
      * match goal with E : scan_once _ _ = _ |- _ => apply IHs in E end.
        apply IHo in H. eapply consumed_reached; [|exact H]. eauto 12 with scan.
Qed.

Ltac skip_bound x :=
  lazymatch goal with
  | _ : length (skip_ws x) <= length x |- _ => fail
  | _ => pose proof (skip_ws_length x (skip_ws x) eq_refl)
  end.

Ltac lengths :=
  repeat match goal with
  | H : consumed _ _ |- _ => apply consumed_length in H
  | H : skip_ws _ = _ |- _ => apply skip_ws_length in H
  end;
  repeat match goal with
  | |- context [skip_ws ?x] => skip_bound x
  | _ : context [skip_ws ?x] |- _ => skip_bound x
  end;
  simpl in *.

Ltac by_consumed IHs :=
  repeat match goal with
  | E : scan_once _ _ = POk _ _ |- _ => apply (proj1 (scan_consumed _)) in E
  end.

(** With more fuel than twice the length of the text, no scanning function
    runs out of it. *)
Lemma scan_fuel (fuel : nat) :
  (forall s, 2 * length s < fuel -> scan_once fuel s <> PFuel) /\
  (forall s acc, 2 * length s + 1 < fuel -> array_items fuel s acc <> PFuel) /\
  (forall s acc, 2 * length s + 1 < fuel -> object_members fuel s acc <> PFuel).
Proof.
  induction fuel as [|fuel (IHs & IHa & IHo)].
  - repeat split; intros; lia.
  - repeat split.
    + intros s Hlen H. destruct s as [|c r]; [discriminate H|].
      simpl in H, Hlen. break_scan H.
      * match goal with E : scanstring _ _ = PFuel |- _ =>
          now apply (scanstring_fuel _ _ _ (le_n _)) in E end.
      * apply IHo in H; [easy|]. lengths. lia.
      * apply IHa in H; [easy|]. lengths. lia.
    + intros s acc Hlen H. simpl in H. break_scan H; by_consumed IHs.
      * apply IHa in H; [easy|]. lengths. lia.
      * match goal with E : scan_once _ _ = PFuel |- _ =>
          apply IHs in E; [easy|lia] end.
    + intros s acc Hlen H. simpl in H.
      break_scan H; known_string; by_consumed IHs.
      * apply IHo in H; [easy|]. lengths. lia.
      * match goal with E : scan_once _ _ = PFuel |- _ =>
          apply IHs in E; [easy|] end.
        lengths. lia.
      * match goal with E : scanstring _ _ = PFuel |- _ =>
          now apply (scanstring_fuel _ _ _ (le_n _)) in E end.
Qed.

End ScanOnceFacts.

Section LoadsFacts.

(** [None] from [json_loads] is always a decoding error: the budget it
    gives the scanner is never exhausted. *)
Lemma json_loads_fuel (s : str) :
  scan_once (2 * length s + 1) (skip_ws s) <> PFuel.
Proof.
  apply (proj1 (scan_fuel _)).
  pose proof (skip_ws_length s _ eq_refl). lia.
Qed.

Lemma scan_once_backtick (fuel : nat) (r : str) :
  scan_once (S fuel) (96%N :: r) = PError.
Proof. reflexivity. Qed.

Lemma startswith_backtick (c : N) (r p : str) :
  c <> 96%N -> startswith (c :: r) (96%N :: p) = false.
Proof. intros H. cbn [startswith]. apply not_eq_sym, N.eqb_neq in H. now rewrite H. Qed.

(** A text that [json_loads] accepts neither starts nor ends with a
    backtick. *)
Lemma json_loads_no_fence (s : str) (v : json) :
  json_loads s = Some v ->
  startswith s (lit "```json") = false /\
  startswith s fence = false /\
  endswith s fence = false.
Proof.
  unfold json_loads. destruct (startswith s [65279%N]) eqn:Hbom; [easy|].
  destruct (scan_once _ _) as [v' rest| |] eqn:Hscan; try easy.
  destruct (skip_ws rest) eqn:Hrest; [|easy]. intros _.
  assert (Hstart : forall p, startswith s (96%N :: p) = false).
  { intros p. destruct s as [|c r]; [reflexivity|].
    destruct (N.eq_dec c 96%N) as [->|Hc]; [|now apply startswith_backtick].
    replace (2 * length (96%N :: r) + 1) with (S (2 * length (96%N :: r))) in Hscan by lia.
    change (skip_ws (96%N :: r)) with (96%N :: r) in Hscan.
    now rewrite scan_once_backtick in Hscan. }
  split; [apply Hstart|]. split; [apply Hstart|].
  apply (proj1 (scan_consumed _)) in Hscan.
  apply consumed_skip_ws in Hscan. destruct Hscan as (pre & c & -> & Hc).
  destruct (lstrip_by_split is_json_ws rest) as (ws & Ews & Hws).
  fold (skip_ws rest) in Ews. rewrite Hrest, app_nil_r in Ews. subst ws.
  unfold endswith. change (rev fence) with [96%N; 96%N; 96%N].
  destruct rest as [|x rest'] using rev_ind.
  - rewrite rev_app_distr. cbn [rev app]. now apply startswith_backtick.
  - replace (pre ++ c :: rest' ++ [x]) with ((pre ++ c :: rest') ++ [x])
      by now rewrite <- app_assoc.
    rewrite rev_app_distr. cbn [rev app]. apply startswith_backtick.
    rewrite forallb_app in Hws. apply andb_true_iff in Hws as [_ Hx].
    simpl in Hx. rewrite andb_true_r in Hx. intros ->. discriminate Hx.
Qed.

Lemma scan_once_letter_j (fuel : nat) (r : str) :
  scan_once (S fuel) (106%N :: r) = PError.
Proof. reflexivity. Qed.

(** A text that [json_loads] accepts starts with a character that is
    neither a backtick nor the letter [j]. *)
Lemma json_loads_first (s : str) (v : json) :
  json_loads s = Some v ->
  exists c r, s = c :: r /\ c <> 96%N /\ c <> 106%N.
Proof.
  unfold json_loads. destruct (startswith s [65279%N]) eqn:Hbom; [easy|].
  destruct (scan_once _ _) as [v' rest| |] eqn:Hscan; try easy. intros _.
  destruct s as [|c r]; [discriminate Hscan|].
  exists c, r. split; [reflexivity|].
  replace (2 * length (c :: r) + 1) with (S (2 * length (c :: r))) in Hscan by lia.
  split; intros ->.
  - change (skip_ws (96%N :: r)) with (96%N :: r) in Hscan.
    now rewrite scan_once_backtick in Hscan.
  - change (skip_ws (106%N :: r)) with (106%N :: r) in Hscan.
    now rewrite scan_once_letter_j in Hscan.
Qed.

End LoadsFacts.

(** ** The response normalizer *)

Section NormalizerFacts.

Variable unicode_lower : str -> str.

Lemma slice_to_neg_app (x p : str) : slice_to_neg (length p) (x ++ p) = x.
Proof.
  unfold slice_to_neg. rewrite length_app.
  replace (length x + length p - length p) with (length x) by lia.
  now rewrite firstn_app, Nat.sub_diag, firstn_all, firstn_O, app_nil_r.
Qed.

Lemma skipn_app_exact (p r : str) : skipn (length p) (p ++ r) = r.
Proof. induction p as [|a p IH]; [reflexivity|exact IH]. Qed.

Lemma clean_text_fenced (tag ws1 j ws2 : str) (v : json) :
  tag = [] \/ tag = lit "json" ->
  forallb isspace ws1 = true -> forallb isspace ws2 = true ->
  json_loads (strip j) = Some v ->
  clean_text (fenced tag ws1 j ws2) = strip j.
Proof.
  intros Htag Hws1 Hws2 Hv. unfold clean_text.
  assert (Hs : strip (fenced tag ws1 j ws2) = fenced tag ws1 j ws2).
  { unfold fenced.
    replace (fence ++ tag ++ ws1 ++ j ++ ws2 ++ fence)
      with (96%N :: ([96%N; 96%N] ++ tag ++ ws1 ++ j ++ ws2 ++ [96%N; 96%N]) ++ [96%N]).
    - now apply strip_fixed.
    - rewrite <- !app_assoc. reflexivity. }
  rewrite Hs. clear Hs.
  set (body := ws1 ++ j ++ ws2 ++ fence).
  assert (Hhead : exists c r, body = c :: r /\ c <> 96%N /\ c <> 106%N).
  { destruct (json_loads_first _ _ Hv) as (c & r & Hc & H96 & H106).
    destruct (strip_first j c r Hc) as (d & r' & -> & Hd).
    assert (Hd' : d <> 96%N /\ d <> 106%N).
    { destruct Hd as [Hd | ->]; [|now split]. split; intros ->; discriminate Hd. }
    subst body. destruct ws1 as [|x ws1]; cbn [app].
    - exists d. eexists. split; [reflexivity|exact Hd'].
    - exists x. eexists. split; [reflexivity|].
      cbn [forallb] in Hws1. apply andb_true_iff in Hws1 as [Hx _].
      split; intros ->; discriminate Hx. }
  destruct Hhead as (c & r & Hbody & H96 & H106).
  assert (Hnf : startswith body fence = false).
  { rewrite Hbody. now apply startswith_backtick. }
  assert (He : endswith body fence = true).
  { unfold endswith. subst body. rewrite !rev_app_distr, <- !app_assoc.
    apply startswith_app. }
  assert (Hrest : strip (slice_to_neg 3 body) = strip j).
  { subst body.
    replace (ws1 ++ j ++ ws2 ++ fence) with ((ws1 ++ j ++ ws2) ++ fence)
      by now rewrite <- !app_assoc.
    rewrite (slice_to_neg_app _ fence).
    rewrite strip_app_space_l by exact Hws1.
    now apply strip_app_space_r. }
  unfold fenced. fold body. cbv zeta. destruct Htag as [-> | ->].
  - cbn [app].
    assert (Hj : startswith (fence ++ body) (lit "```json") = false).
    { rewrite Hbody.
      change (startswith (fence ++ c :: r) (lit "```json"))
        with ((106 =? c)%N && startswith r (lit "son")).
      apply not_eq_sym, N.eqb_neq in H106. now rewrite H106. }
    rewrite Hj, (startswith_app fence body). unfold slice_from.
    change (skipn 3 (fence ++ body)) with (skipn (length fence) (fence ++ body)).
    rewrite (skipn_app_exact fence body), He. exact Hrest.
  - change (fence ++ lit "json" ++ body) with (lit "```json" ++ body).
    rewrite (startswith_app (lit "```json") body). unfold slice_from.
    change (skipn 7 (lit "```json" ++ body))
      with (skipn (length (lit "```json")) (lit "```json" ++ body)).
    rewrite (skipn_app_exact (lit "```json") body), Hnf, He. exact Hrest.
Qed.

Lemma clean_text_json (j : str) (v : json) :
  json_loads (strip j) = Some v -> clean_text j = strip j.
Proof.
  intros H. destruct (json_loads_no_fence _ _ H) as (H1 & H2 & H3).
  unfold clean_text. rewrite H1, H2, H3. apply strip_idem.
Qed.

Lemma fill_defaults_object (keys : list str) (m : gmap str json) :
  fill_defaults keys (JObject m) = Return (JObject (fill_map keys m)).
Proof.
  revert m. induction keys as [|key rest IH]; intros m; [reflexivity|].
  cbn [fill_defaults fill_map py_contains mbind outcome_bind].
  destruct (m !! key) as [v|] eqn:E.
  - rewrite bool_decide_eq_true_2 by eauto. cbn. apply IH.
  - rewrite bool_decide_eq_false_2 by (intros [? ?]; discriminate).
    cbn [negb]. unfold default_for.
    destruct (str_eqb key (lit "architecture_mermaid")); cbn; apply IH.
Qed.

Lemma fill_map_lookup (keys : list str) (m : gmap str json) (k : str) :
  fill_map keys m !! k =
  match m !! k with
  | Some v => Some v
  | None => if str_in k keys then Some (default_for k) else None
  end.
Proof.
  revert m. induction keys as [|key rest IH]; intros m; cbn [fill_map].
  - now destruct (m !! k).
  - rewrite IH. cbn [str_in existsb]. fold (str_in k rest).
    destruct (decide (k = key)) as [->|Hk].
    + unfold str_eqb at 1. rewrite bool_decide_eq_true_2 by reflexivity.
      destruct (m !! key) as [v|] eqn:E; [now rewrite E|].
      now rewrite lookup_insert_eq.
    + unfold str_eqb at 1. rewrite bool_decide_eq_false_2 by exact Hk.
      destruct (m !! key) as [v|] eqn:E; [reflexivity|].
      rewrite lookup_insert_ne by congruence. reflexivity.
Qed.

Lemma fill_map_default (m : gmap str json) (k : str) :
  In k default_keys -> m !! k = None ->
  fill_map default_keys m !! k = Some (default_for k).
Proof.
  intros Hin Hk. rewrite fill_map_lookup, Hk.
  replace (str_in k default_keys) with true; [reflexivity|].
  symmetry. apply existsb_exists. exists k. split; [exact Hin|].
  now apply bool_decide_eq_true_2.
Qed.

Lemma fill_map_present (m : gmap str json) (k : str) (v : json) :
  m !! k = Some v -> fill_map default_keys m !! k = Some v.
Proof. intros Hk. now rewrite fill_map_lookup, Hk. Qed.

(** On a decoded object, the normalizer is the diagram repair and the
    joining of the technologies after the defaults. *)
Lemma parse_analysis_object (text : str) (m : gmap str json) :
  json_loads (clean_text text) = Some (JObject m) ->
  parse_analysis unicode_lower text =
  (data ← repair_mermaid unicode_lower (JObject (fill_map default_keys m));
   join_tech_stack data).
Proof.
  intros H. unfold parse_analysis. rewrite H, fill_defaults_object.
  cbn [mbind outcome_bind py_contains].
  rewrite bool_decide_eq_true_2; [reflexivity|].
  rewrite fill_map_lookup.
  destruct (m !! lit "architecture_mermaid"); [eauto|]. now eexists.
Qed.

(** The diagram that [repair_mermaid] stores is empty or starts with the
    graph keyword. *)
Lemma repair_mermaid_string (m : gmap str json) (s : str) :
  m !! lit "architecture_mermaid" = Some (JString s) ->
  exists x,
    repair_mermaid unicode_lower (JObject m)
    = Return (JObject (<[lit "architecture_mermaid" := JString x]> m)) /\
    (x = [] \/ startswith x (lit "graph") = true).
Proof.
  intros Hm. unfold repair_mermaid.
  cbn [py_getitem mbind outcome_bind]. rewrite Hm.
  cbn [py_str_method py_setitem mbind outcome_bind].
  set (c := strip (replace (replace s (lit "```mermaid") []) fence [])).
  set (x := if negb (str_eqb c []) && negb (startswith c (lit "graph"))
            then lit "graph TD;" ++ [10%N] ++ c else c).
  assert (Hx : x = [] \/ startswith x (lit "graph") = true).
  { subst x. unfold str_eqb. case_bool_decide as Hc; cbn [negb andb].
    - now left.
    - destruct (startswith c (lit "graph")) eqn:Hg; cbn [negb]; right; [exact Hg|].
      reflexivity. }
  destruct (str_eqb (lower unicode_lower x) (lit "not available")).
  - exists []. rewrite insert_insert_eq. split; [reflexivity|now left].
  - exists x. split; [reflexivity|exact Hx].
Qed.

End NormalizerFacts.

Section NormalizerShape.

Variable unicode_lower : str -> str.

Lemma repair_mermaid_empty (m : gmap str json) :
  m !! lit "architecture_mermaid" = Some (JString []) ->
  repair_mermaid unicode_lower (JObject m)
  = Return (JObject (<[lit "architecture_mermaid" := JString []]> m)).
Proof.
  intros Hm. unfold repair_mermaid.
  cbn [py_getitem mbind outcome_bind]. rewrite Hm. reflexivity.
Qed.

Lemma py_join_items_strings (parts : list str) :
  py_join_items (map JString parts) = Return parts.
Proof.
  induction parts as [|p parts IH]; [reflexivity|].
  cbn [map py_join_items]. rewrite IH. reflexivity.
Qed.

Lemma all_strings_map (items : list json) :
  all_strings items = true -> exists parts, items = map JString parts.
Proof.
  induction items as [|v items IH]; [now exists []|].
  cbn [all_strings forallb]. destruct v; try discriminate.
  intros H. destruct (IH H) as [parts ->]. now exists (s :: parts).
Qed.

Lemma py_join_items_raise (items : list json) :
  all_strings items = false -> py_join_items items = Raise TypeError.
Proof.
  induction items as [|v items IH]; [discriminate|].
  cbn [all_strings forallb py_join_items]. destruct v; try reflexivity.
  intros H. fold (all_strings items) in H. rewrite (IH H). reflexivity.
Qed.

(** What [join_tech_stack] does on a dictionary with the key. *)
Lemma join_tech_stack_object (m : gmap str json) (v : json) :
  m !! lit "tech_stack" = Some v ->
  join_tech_stack (JObject m) =
  match v with
  | JArray items =>
      match py_join_items items with
      | Return parts =>
          Return (JObject (<[lit "tech_stack" := JString (join (lit ", ") parts)]> m))
      | Raise e => Raise e
      end
  | _ => Return (JObject m)
  end.
Proof.
  intros Hm. unfold join_tech_stack. cbn [py_getitem mbind outcome_bind].
  rewrite Hm. destruct v; reflexivity.
Qed.

(** The shape of the result on a decoded object whose diagram is absent or
    a string. *)
Lemma parse_analysis_shape (text : str) (m : gmap str json) :
  json_loads (clean_text text) = Some (JObject m) ->
  (forall v, m !! lit "architecture_mermaid" = Some v -> exists s, v = JString s) ->
  exists x ts,
    (x = [] \/ startswith x (lit "graph") = true) /\
    (m !! lit "architecture_mermaid" = None -> x = []) /\
    fill_map default_keys m !! lit "tech_stack" = Some ts /\
    parse_analysis unicode_lower text =
    join_tech_stack
      (JObject (<[lit "architecture_mermaid" := JString x]> (fill_map default_keys m))) /\
    (<[lit "architecture_mermaid" := JString x]> (fill_map default_keys m))
      !! lit "tech_stack" = Some ts.
Proof.
  intros Hload Hdiag. rewrite (parse_analysis_object _ _ _ Hload).
  assert (Hts : exists ts, fill_map default_keys m !! lit "tech_stack" = Some ts).
  { rewrite fill_map_lookup. destruct (m !! lit "tech_stack"); eauto. }
  destruct Hts as [ts Hts].
  destruct (m !! lit "architecture_mermaid") as [v|] eqn:Hm.
  - destruct (Hdiag v eq_refl) as [s ->].
    destruct (repair_mermaid_string unicode_lower (fill_map default_keys m) s)
      as (x & -> & Hx); [now apply fill_map_present|].
    exists x, ts. repeat split; [exact Hx|discriminate|exact Hts|].
    rewrite lookup_insert_ne by lit_neq. exact Hts.
  - rewrite repair_mermaid_empty
      by (rewrite fill_map_default; [reflexivity|vm_compute; tauto|exact Hm]).
    exists [], ts. repeat split; [now left|exact Hts|].
    rewrite lookup_insert_ne by lit_neq. exact Hts.
Qed.

End NormalizerShape.

Section NotAnObject.

Variable unicode_lower : str -> str.

Lemma fill_defaults_not_object (keys : list str) (v : json) :
  (forall m, v <> JObject m) ->
  fill_defaults keys v = Raise TypeError \/ fill_defaults keys v = Return v.
Proof.
  intros Hv. induction keys as [|key keys IH]; [now right|].
  cbn [fill_defaults].
  destruct v as [| | | s | items | m]; try (now left); [| |now destruct (Hv m)];
    cbn [py_contains mbind outcome_bind];
    match goal with |- context [negb ?b] => destruct b end; cbn [negb];
    try exact IH; left;
    destruct (str_eqb key (lit "architecture_mermaid")); reflexivity.
Qed.

(** Every text that decodes to something other than an object makes the
    normalizer raise [TypeError]. *)
Lemma parse_analysis_not_object (text : str) (v : json) :
  json_loads (clean_text text) = Some v ->
  (forall m, v <> JObject m) ->
  parse_analysis unicode_lower text = Raise TypeError.
Proof.
  intros Hload Hv. unfold parse_analysis. rewrite Hload.
  destruct (fill_defaults_not_object default_keys v Hv) as [-> | ->];
    [reflexivity|].
  cbn [mbind outcome_bind].
  destruct v as [| | | s | items | m]; try reflexivity; [| |now destruct (Hv m)];
    cbn [py_contains mbind outcome_bind];
    match goal with |- context [if ?b then _ else _] => destruct b end;
    reflexivity.
Qed.

End NotAnObject.

Section NormalizerTheorems.

Variable unicode_lower : str -> str.

Lemma fill_map_array (m : gmap str json) (items : list json) :
  fill_map default_keys m !! lit "tech_stack" = Some (JArray items) ->
  m !! lit "tech_stack" = Some (JArray items).
Proof.
  rewrite fill_map_lookup. destruct (m !! lit "tech_stack"); [easy|].
  vm_compute. discriminate.
Qed.

Lemma fill_map_not_array (m : gmap str json) (ts : json) :
  fill_map default_keys m !! lit "tech_stack" = Some ts ->
  (forall items, ts <> JArray items) ->
  forall items, m !! lit "tech_stack" <> Some (JArray items).
Proof.
  intros Hts Hne items Hm. rewrite fill_map_lookup, Hm in Hts.
  injection Hts as <-. now apply (Hne items).
Qed.

(** C1 (the code departs from it): [parse_analysis] does not return a
    record on every input.  Valid JSON that is not an object - a list, a
    number, a string, [null] - raises [TypeError]; an object whose diagram
    is not a string raises [AttributeError]; an object whose technologies
    are a list with a number in it raises [TypeError].  None of these is the
    [JSONDecodeError] that the function catches. *)
Theorem C1_parse_analysis_raises :
  parse_analysis unicode_lower (dq "[]") = Raise TypeError /\
  parse_analysis unicode_lower (dq "5") = Raise TypeError /\
  parse_analysis unicode_lower (dq "'tech_stack'") = Raise TypeError /\
  parse_analysis unicode_lower (dq "null") = Raise TypeError /\
  parse_analysis unicode_lower (dq "{'architecture_mermaid': 5}") = Raise AttributeError /\
  parse_analysis unicode_lower (dq "{'tech_stack': [1, 2]}") = Raise TypeError.
Proof. repeat split; vm_compute; reflexivity. Qed.

(** On a text that [json.loads] refuses, all six fields are there. *)
Lemma parse_analysis_undecodable (text : str) (key : str) :
  json_loads (clean_text text) = None ->
  In key default_keys ->
  exists s, field (parse_analysis unicode_lower text) key = Some (JString s).
Proof.
  intros H Hin. unfold parse_analysis. rewrite H. cbn [field].
  unfold error_record.
  destruct Hin as [<-|[<-|[<-|[<-|[<-|[<-|[]]]]]]]; lookup_field; eauto.
Qed.

(** C3 (the code departs from it): the diagram [A-->B] gets the graph
    header, as the claim says; the diagram [Not Available] gets it too, in
    this and in the other casings, and is not made empty: the comparison with
    [not available] comes after the header was added. *)
Theorem C3_diagram_repair :
  field (parse_analysis unicode_lower (dq "{'architecture_mermaid':'A-->B'}"))
    (lit "architecture_mermaid")
  = Some (JString (lit "graph TD;" ++ [10%N] ++ lit "A-->B")) /\
  field (parse_analysis unicode_lower (dq "{'architecture_mermaid':'Not Available'}"))
    (lit "architecture_mermaid")
  = Some (JString (lit "graph TD;" ++ [10%N] ++ lit "Not Available")) /\
  field (parse_analysis unicode_lower (dq "{'architecture_mermaid':'not available'}"))
    (lit "architecture_mermaid")
  = Some (JString (lit "graph TD;" ++ [10%N] ++ lit "not available")) /\
  field (parse_analysis unicode_lower (dq "{'architecture_mermaid':'NOT AVAILABLE'}"))
    (lit "architecture_mermaid")
  = Some (JString (lit "graph TD;" ++ [10%N] ++ lit "NOT AVAILABLE")).
Proof. repeat split; vm_compute; reflexivity. Qed.

(** C4, amended: for a text [j] whose stripped form [json.loads]
    accepts, the normalizer gives the same result on [j] between a leading
    fence marker without a tag, or with the tag [json], and a trailing fence
    marker (with any white space between the markers and [j]) as on [j]
    itself. *)
Theorem C4_fenced_json (tag ws1 j ws2 : str) (v : json) :
  tag = [] \/ tag = lit "json" ->
  forallb isspace ws1 = true -> forallb isspace ws2 = true ->
  json_loads (strip j) = Some v ->
  parse_analysis unicode_lower (fenced tag ws1 j ws2)
  = parse_analysis unicode_lower j.
Proof.
  intros Htag Hws1 Hws2 Hv. unfold parse_analysis.
  rewrite (clean_text_fenced tag ws1 j ws2 v Htag Hws1 Hws2 Hv).
  rewrite (clean_text_json j v Hv), Hv. reflexivity.
Qed.

(** C5 (the code departs from it): the example of the claim gives the
    record of the claim; but the general sentence fails where the defect of
    C1 shows.  A list of technologies with an element that is not a string is
    not joined: [', '.join] raises [TypeError]; and an object whose diagram is
    [null] gets no default: [.replace] raises [AttributeError].  On every
    other text decoded to an object (a diagram that is absent or a string,
    technologies that are not a list with an element that is not a string)
    the normalizer returns a record in which every absent required field has
    its default (the empty string for the diagram, [Not available] for the
    others) and a list of technologies is joined with a comma and a space. *)
Theorem C5_defaults_and_joined_tech_stack :
  parse_analysis unicode_lower (dq "{'tech_stack':['Go','Redis'],'project_type':'API'}")
  = Return (JObject
      (<[lit "tech_stack" := JString (lit "Go, Redis")]>
      (<[lit "project_type" := JString (lit "API")]>
      (<[lit "architecture_mermaid" := JString []]>
      (<[lit "architecture_description" := JString (lit "Not available")]>
      (<[lit "what_it_does" := JString (lit "Not available")]>
      (<[lit "recruiter_summary" := JString (lit "Not available")]> ∅)))))))
  /\
  parse_analysis unicode_lower (dq "{'tech_stack':['Go',1],'project_type':'API'}")
  = Raise TypeError
  /\
  parse_analysis unicode_lower (dq "{'architecture_mermaid':null,'project_type':'API'}")
  = Raise AttributeError
  /\
  forall (text : str) (m : gmap str json),
    json_loads (clean_text text) = Some (JObject m) ->
    (forall v, m !! lit "architecture_mermaid" = Some v -> exists s, v = JString s) ->
    (forall items, m !! lit "tech_stack" = Some (JArray items) ->
                   all_strings items = true) ->
    exists m',
      parse_analysis unicode_lower text = Return (JObject m') /\
      (forall key, In key default_keys -> m !! key = None ->
                   m' !! key = Some (default_for key)) /\
      (forall parts, m !! lit "tech_stack" = Some (JArray (map JString parts)) ->
                     m' !! lit "tech_stack" = Some (JString (join (lit ", ") parts))).
Proof.
  split; [vm_compute; reflexivity|].
  split; [vm_compute; reflexivity|].
  split; [vm_compute; reflexivity|].
  intros text m Hload Hdiag Hlist.
  destruct (parse_analysis_shape unicode_lower text m Hload Hdiag)
    as (x & ts & Hx & Hx0 & Hts & -> & Hts').
  rewrite (join_tech_stack_object _ _ Hts').
  assert (Hother : (forall items, ts <> JArray items) ->
    exists m',
      Return (JObject (<[lit "architecture_mermaid" := JString x]>
                         (fill_map default_keys m))) = Return (JObject m') /\
      (forall key, In key default_keys -> m !! key = None ->
                   m' !! key = Some (default_for key)) /\
      (forall parts, m !! lit "tech_stack" = Some (JArray (map JString parts)) ->
                     m' !! lit "tech_stack" = Some (JString (join (lit ", ") parts)))).
  { intros Hne. eexists. split; [reflexivity|]. split.
    - intros key Hin Hkey.
      destruct Hin as [<-|[<-|[<-|[<-|[<-|[<-|[]]]]]]]; lookup_field;
        try (apply fill_map_default; [vm_compute; tauto|exact Hkey]).
      now rewrite (Hx0 Hkey).
    - intros parts Hm. now destruct (fill_map_not_array m ts Hts Hne _ Hm). }
  destruct ts as [| | | |items|]; try (apply Hother; discriminate).
  pose proof (fill_map_array m items Hts) as Hm.
  destruct (all_strings_map items (Hlist items Hm)) as [parts0 ->].
  rewrite py_join_items_strings.
  eexists. split; [reflexivity|]. split.
  - intros key Hin Hkey.
    destruct Hin as [<-|[<-|[<-|[<-|[<-|[<-|[]]]]]]]; lookup_field;
      try (apply fill_map_default; [vm_compute; tauto|exact Hkey]).
    + now rewrite Hkey in Hm.
    + now rewrite (Hx0 Hkey).
  - intros parts Hparts. rewrite Hm in Hparts. injection Hparts as Hparts.
    apply (f_equal py_join_items) in Hparts.
    rewrite !py_join_items_strings in Hparts. injection Hparts as ->.
    now lookup_field.
Qed.

(** C9: on a text decoded to an object whose diagram is absent or a
    string, the normalizer returns a record whose diagram is the empty
    string or starts with [graph] - unless the technologies are a list with an
    element that is not a string, where it raises [TypeError] and returns no
    record. *)
Theorem C9_diagram_empty_or_graph (text : str) (m : gmap str json) :
  json_loads (clean_text text) = Some (JObject m) ->
  (m !! lit "architecture_mermaid" = None \/
   exists s, m !! lit "architecture_mermaid" = Some (JString s)) ->
  (exists m' x,
     parse_analysis unicode_lower text = Return (JObject m') /\
     m' !! lit "architecture_mermaid" = Some (JString x) /\
     (x = [] \/ startswith x (lit "graph") = true))
  \/
  (parse_analysis unicode_lower text = Raise TypeError /\
   exists items, m !! lit "tech_stack" = Some (JArray items) /\
                 all_strings items = false).
Proof.
  intros Hload Hdiag.
  assert (Hd : forall v, m !! lit "architecture_mermaid" = Some v ->
                         exists s, v = JString s).
  { intros v Hv. destruct Hdiag as [Hn|[s Hs]]; [congruence|].
    exists s. congruence. }
  destruct (parse_analysis_shape unicode_lower text m Hload Hd)
    as (x & ts & Hx & _ & Hts & -> & Hts').
  rewrite (join_tech_stack_object _ _ Hts').
  destruct ts as [| | | |items|];
    try (left; eexists _, x; split; [reflexivity|]; split; [now lookup_field|exact Hx]).
  destruct (all_strings items) eqn:Hs.
  - destruct (all_strings_map items Hs) as [parts ->].
    rewrite py_join_items_strings. left. eexists _, x.
    split; [reflexivity|]. split; [now lookup_field|exact Hx].
  - rewrite (py_join_items_raise items Hs). right. split; [reflexivity|].
    exists items. split; [now apply fill_map_array|exact Hs].
Qed.

End NormalizerTheorems.

(** C4: the claim as stated fails for the tag [javascript]: the fenced
    text is not decoded and gives the error record, the bare text gives the
    record of defaults. *)
Lemma C4_any_tag_counterexample :
  json_loads (dq "{}") = Some (JObject ∅) /\
  parse_analysis no_case_tables (fenced (lit "javascript") [10%N] (dq "{}") [10%N])
  <> parse_analysis no_case_tables (dq "{}").
Proof.
  split; [vm_compute; reflexivity|]. intros E.
  apply (f_equal (fun r => field r (lit "tech_stack"))) in E.
  vm_compute in E. discriminate E.
Qed.

Lemma C4_fenced_json_witness :
  parse_analysis no_case_tables
    (fenced (lit "json") [10%N] (dq "{'project_type':'API'}") [10%N])
  = parse_analysis no_case_tables (dq "{'project_type':'API'}").
Proof.
  apply (C4_fenced_json no_case_tables (lit "json") [10%N]
           (dq "{'project_type':'API'}") [10%N]
           (JObject (<[lit "project_type" := JString (lit "API")]> ∅))).
  - right. reflexivity.
  - reflexivity.
  - reflexivity.
  - vm_compute. reflexivity.
Defined.

(** ** The repository-reference parser *)

Section SearchFacts.

#[local] Arguments lit : simpl never.

Lemma lstrip_by_app_stop (p : N -> bool) (a : str) (c : N) (r : str) :
  p c = false -> lstrip_by p (a ++ c :: r) = lstrip_by p a ++ c :: r.
Proof.
  intros Hc. induction a as [|x a IH]; cbn [app lstrip_by].
  - now rewrite Hc.
  - destruct (p x); [exact IH|reflexivity].
Qed.

Lemma rstrip_by_app_stop (p : N -> bool) (r : str) (c : N) (a : str) :
  p c = false -> rstrip_by p (r ++ c :: a) = r ++ c :: rstrip_by p a.
Proof.
  intros Hc. unfold rstrip_by.
  rewrite rev_app_distr. cbn [rev]. rewrite <- app_assoc. cbn [app].
  rewrite lstrip_by_app_stop by exact Hc.
  rewrite rev_app_distr. cbn [rev]. rewrite rev_involutive.
  now rewrite <- app_assoc.
Qed.

Lemma rstrip_by_prefix (p : N -> bool) (s : str) :
  exists ws, s = rstrip_by p s ++ ws.
Proof.
  unfold rstrip_by. destruct (lstrip_by_split p (rev s)) as (ws & E & _).
  exists (rev ws). apply (f_equal (@rev N)) in E.
  rewrite rev_involutive, rev_app_distr in E. exact E.
Qed.

(** The longest run is tried first: when what follows the run of [cls]
    cannot continue it and the continuation accepts the run, that is the
    match. *)
Lemma m_plus_run {R : Type} (cls : N -> bool) (k : str -> str -> option R)
    (run rest acc : str) (x : R) :
  run <> [] -> forallb cls run = true ->
  (forall c r, rest = c :: r -> cls c = false) ->
  k (acc ++ run) rest = Some x ->
  m_plus cls k acc (run ++ rest) = Some x.
Proof.
  intros Hne Hrun Hrest. revert acc.
  induction run as [|c run IH]; [easy|]. intros acc Hk.
  cbn [app m_plus]. cbn [forallb] in Hrun.
  apply andb_true_iff in Hrun as [Hc Hrun]. rewrite Hc.
  destruct run as [|d run].
  - cbn [app]. destruct rest as [|e rest]; cbn [m_plus].
    + exact Hk.
    + rewrite (Hrest e rest eq_refl). exact Hk.
  - rewrite (IH ltac:(discriminate) Hrun (acc ++ [c])); [reflexivity|].
    now rewrite <- app_assoc.
Qed.

Lemma strip_prefix_app (p r : str) : strip_prefix p (p ++ r) = Some r.
Proof.
  induction p as [|a p IH]; [reflexivity|].
  cbn [app strip_prefix]. now rewrite N.eqb_refl.
Qed.

Lemma strip_prefix_split (p s r : str) :
  strip_prefix p s = Some r -> s = p ++ r.
Proof.
  revert s. induction p as [|a p IH]; intros s; cbn [strip_prefix].
  - now intros [= ->].
  - destruct s as [|b s]; [easy|]. destruct (a =? b)%N eqn:E; [|easy].
    apply N.eqb_eq in E. subst b. intros H. cbn [app]. f_equal. now apply IH.
Qed.

Lemma host_and_groups_here (owner repo post : str) :
  owner <> [] -> forallb not_slash owner = true ->
  repo <> [] -> forallb repo_char repo = true ->
  (forall c r, post = c :: r -> repo_char c = false) ->
  host_and_groups (lit "github.com/" ++ owner ++ lit "/" ++ repo ++ post)
  = Some (owner, repo).
Proof.
  intros Ho1 Ho2 Hr1 Hr2 Hpost. unfold host_and_groups, m_lit at 1.
  rewrite strip_prefix_app.
  apply m_plus_run; [exact Ho1|exact Ho2| |].
  - intros c r E. change (lit "/") with [47%N] in E. now injection E as <- _.
  - cbn [app]. unfold m_lit. rewrite strip_prefix_app.
    now apply m_plus_run.
Qed.

(** A match at the start of [s] has one of the optional prefixes, then the
    host name and the groups. *)
Lemma match_here_prefix (s : str) (m : str * str) :
  match_here s = Some m ->
  exists pfx t, In pfx optional_prefixes /\ s = pfx ++ t /\ host_and_groups t = Some m.
Proof.
  unfold match_here. fold host_and_groups.
  assert (Hwww : forall t, m_opt (m_lit (lit "www.")) host_and_groups t = Some m ->
            exists pfx u, (pfx = [] \/ pfx = lit "www.") /\ t = pfx ++ u /\
                          host_and_groups u = Some m).
  { intros t. unfold m_opt, m_lit at 1.
    destruct (strip_prefix (lit "www.") t) as [u|] eqn:E.
    - destruct (host_and_groups u) eqn:Eu.
      + intros [= <-]. exists (lit "www."), u.
        split; [now right|]. split; [now apply strip_prefix_split|exact Eu].
      + intros H. exists [], t. split; [now left|]. now split.
    - intros H. exists [], t. split; [now left|]. now split. }
  unfold m_opt at 1.
  destruct (m_lit (lit "http") _ s) as [m'|] eqn:Escheme.
  - intros [= ->]. unfold m_lit at 1 in Escheme.
    destruct (strip_prefix (lit "http") s) as [s1|] eqn:E1; [|easy].
    apply strip_prefix_split in E1. subst s. unfold m_opt at 1 in Escheme.
    destruct (m_lit (lit "s") _ s1) as [m'|] eqn:Es.
    + injection Escheme as ->. unfold m_lit at 1 in Es.
      destruct (strip_prefix (lit "s") s1) as [s2|] eqn:E2; [|easy].
      apply strip_prefix_split in E2. subst s1. unfold m_lit at 1 in Es.
      destruct (strip_prefix (lit "://") s2) as [s3|] eqn:E3; [|easy].
      apply strip_prefix_split in E3. subst s2.
      destruct (Hwww s3 Es) as (pfx & u & [-> | ->] & -> & Hu).
      * exists (lit "https://"), u. split; [vm_compute; tauto|]. now split.
      * exists (lit "https://www."), u. split; [vm_compute; tauto|]. now split.
    + unfold m_lit at 1 in Escheme.
      destruct (strip_prefix (lit "://") s1) as [s3|] eqn:E3; [|easy].
      apply strip_prefix_split in E3. subst s1.
      destruct (Hwww s3 Escheme) as (pfx & u & [-> | ->] & -> & Hu).
      * exists (lit "http://"), u. split; [vm_compute; tauto|]. now split.
      * exists (lit "http://www."), u. split; [vm_compute; tauto|]. now split.
  - intros H. destruct (Hwww s H) as (pfx & u & [-> | ->] & -> & Hu).
    + exists [], u. split; [vm_compute; tauto|]. now split.
    + exists (lit "www."), u. split; [vm_compute; tauto|]. now split.
Qed.

Lemma host_and_groups_startswith (t : str) (m : str * str) :
  host_and_groups t = Some m -> startswith t (lit "github.com/") = true.
Proof.
  unfold host_and_groups, m_lit at 1.
  destruct (strip_prefix (lit "github.com/") t) as [u|] eqn:E; [|easy].
  intros _. apply strip_prefix_split in E. subst t. apply startswith_app.
Qed.

Lemma match_here_host (t : str) (m : str * str) :
  host_and_groups t = Some m -> match_here t = Some m.
Proof.
  intros H. pose proof (host_and_groups_startswith t m H) as Hs.
  apply startswith_split in Hs. rewrite Hs in H |- *.
  unfold match_here. fold host_and_groups.
  change (lit "github.com/") with (103%N :: skipn 1 (lit "github.com/")) in H |- *.
  cbn [app]. unfold m_opt at 1. unfold m_lit at 1.
  change (strip_prefix (lit "http") (103%N :: ?x)) with (@None str).
  cbv beta match. unfold m_opt, m_lit at 1.
  change (strip_prefix (lit "www.") (103%N :: ?x)) with (@None str).
  cbv beta match. exact H.
Qed.

End SearchFacts.

Section SearchTheorem.

#[local] Arguments lit : simpl never.

Lemma optional_prefix_no_g (pfx : str) :
  In pfx optional_prefixes -> forallb (fun c => negb (c =? 103)%N) pfx = true.
Proof.
  intros H. repeat (destruct H as [<-|H]; [reflexivity|]). destruct H.
Qed.

Lemma startswith_g (s p : str) :
  startswith s (103%N :: p) = true -> exists r, s = 103%N :: r.
Proof.
  destruct s as [|c r]; cbn [startswith]; [easy|].
  destruct (103 =? c)%N eqn:E; [|easy]. apply N.eqb_eq in E. subst c. eauto.
Qed.

(** The search finds the first place where the host name and the groups
    match, when the host name does not start at an earlier place. *)
Lemma re_search_first (pre s : str) (m : str * str) :
  host_and_groups s = Some m ->
  (forall p1 p2, pre = p1 ++ p2 -> p2 <> [] ->
                 startswith (p2 ++ s) (lit "github.com/") = false) ->
  re_search (pre ++ s) = Some m.
Proof.
  intros Hs. induction pre as [|c pre IH]; intros Hfirst.
  - cbn [app]. destruct s; cbn [re_search]; now rewrite (match_here_host _ _ Hs).
  - cbn [app re_search].
    destruct (match_here (c :: pre ++ s)) as [m'|] eqn:Em.
    + f_equal. apply match_here_prefix in Em.
      destruct Em as (pfx & t & Hin & E & Ht).
      change (c :: pre ++ s) with ((c :: pre) ++ s) in E.
      apply app_eq_app in E. destruct E as (l & [[E1 E2] | [E1 E2]]).
      * destruct l as [|x l].
        -- rewrite app_nil_l in E2. subst t. congruence.
        -- apply host_and_groups_startswith in Ht. subst t.
           rewrite (Hfirst pfx (x :: l)) in Ht; [discriminate Ht|exact E1|discriminate].
      * destruct l as [|x l].
        -- rewrite app_nil_l in E2. subst t. congruence.
        -- pose proof (host_and_groups_startswith _ _ Hs) as Hg.
           apply startswith_g in Hg. destruct Hg as [r Hr].
           rewrite Hr in E2. injection E2 as <- _.
           apply optional_prefix_no_g in Hin. rewrite E1 in Hin.
           rewrite forallb_app in Hin. apply andb_true_iff in Hin as [_ Hin].
           discriminate Hin.
    + apply IH. intros p1 p2 -> Hp2. now apply (Hfirst (c :: p1) p2).
Qed.

Lemma startswith_app_long (a b p : str) :
  length p <= length a -> startswith (a ++ b) p = startswith a p.
Proof.
  revert a. induction p as [|x p IH]; intros a Hlen; [reflexivity|].
  destruct a as [|y a]; [cbn in Hlen; lia|].
  cbn [app startswith]. rewrite IH; [reflexivity|]. cbn in Hlen. lia.
Qed.

(** Where the host name [github.com/] first starts in the input, followed
    by an owner (characters other than [/]), a [/] and a repository
    (characters other than [/], white space, [?] and [#]), the parser
    returns that owner and that repository segment after its removal of
    [.git]. *)
Theorem extract_repo_info_first_occurrence (pre owner repo post : str) :
  owner <> [] -> forallb not_slash owner = true ->
  repo <> [] -> forallb repo_char repo = true ->
  (forall c r, post = c :: r -> repo_char c = false) ->
  (forall p1 p2, pre = p1 ++ p2 -> p2 <> [] ->
                 startswith (p2 ++ lit "github.com") (lit "github.com/") = false) ->
  extract_repo_info (pre ++ lit "github.com/" ++ owner ++ lit "/" ++ repo ++ post)
  = (Some owner, Some (replace repo (lit ".git") [])).
Proof.
  intros Ho1 Ho2 Hr1 Hr2 Hpost Hfirst. unfold extract_repo_info.
  destruct (exists_last Hr1) as (repo' & z & ->).
  assert (Hz : repo_char z = true).
  { rewrite forallb_app in Hr2. apply andb_true_iff in Hr2 as [_ Hz].
    cbn in Hz. now rewrite andb_true_r in Hz. }
  assert (Hz1 : isspace z = false /\ (z =? chr "/")%N = false).
  { unfold repo_char in Hz. apply negb_true_iff in Hz.
    apply orb_false_iff in Hz as [Hz _]. apply orb_false_iff in Hz as [Hz _].
    apply orb_false_iff in Hz as [Hz Hz']. now split. }
  destruct Hz1 as [Hzs Hzl].
  set (mid := owner ++ lit "/" ++ repo').
  assert (Hnorm : exists pre' post',
    rstrip_chars (lit "/")
      (strip (pre ++ lit "github.com/" ++ owner ++ lit "/" ++ (repo' ++ [z]) ++ post))
    = pre' ++ lit "github.com/" ++ owner ++ lit "/" ++ (repo' ++ [z]) ++ post' /\
    (exists ws, pre = ws ++ pre') /\ (exists ws, post = post' ++ ws)).
  { exists (lstrip_by isspace pre).
    exists (rstrip_by (fun c => existsb (N.eqb c) (lit "/")) (rstrip_by isspace post)).
    split; [|split].
    - unfold strip, rstrip_chars.
      change (lit "github.com/") with (103%N :: skipn 1 (lit "github.com/")).
      cbn [app]. rewrite lstrip_by_app_stop by reflexivity.
      replace (lstrip_by isspace pre ++
               103%N :: skipn 1 (lit "github.com/") ++ owner ++ lit "/" ++ (repo' ++ [z]) ++ post)
        with ((lstrip_by isspace pre ++
               103%N :: skipn 1 (lit "github.com/") ++ owner ++ lit "/" ++ repo') ++ z :: post)
        by (rewrite <- !app_assoc; cbn [app]; now rewrite <- !app_assoc).
      rewrite rstrip_by_app_stop by exact Hzs.
      rewrite rstrip_by_app_stop
        by (cbn [existsb lit]; change (lit "/") with [chr "/"]; cbn [existsb];
            now rewrite Hzl).
      rewrite <- !app_assoc. cbn [app]. now rewrite <- !app_assoc.
    - destruct (lstrip_by_split isspace pre) as (ws & E & _). eauto.
    - destruct (rstrip_by_prefix isspace post) as (ws1 & E1).
      destruct (rstrip_by_prefix (fun c => existsb (N.eqb c) (lit "/"))
                  (rstrip_by isspace post)) as (ws2 & E2).
      exists (ws2 ++ ws1). rewrite app_assoc, <- E2. exact E1. }
  destruct Hnorm as (pre' & post' & -> & [ws ->] & [ws' ->]).
  rewrite (re_search_first pre'
             (lit "github.com/" ++ owner ++ lit "/" ++ (repo' ++ [z]) ++ post')
             (owner, repo' ++ [z])); [reflexivity| |].
  - apply host_and_groups_here; try assumption.
    intros c r E. apply (Hpost c (r ++ ws')). now rewrite E.
  - intros p1 p2 -> Hp2.
    replace (p2 ++ lit "github.com/" ++ owner ++ lit "/" ++ (repo' ++ [z]) ++ post')
      with ((p2 ++ lit "github.com")
            ++ lit "/" ++ owner ++ lit "/" ++ (repo' ++ [z]) ++ post')
      by (rewrite <- !app_assoc; reflexivity).
    rewrite startswith_app_long.
    + apply (Hfirst (ws ++ p1) p2); [now rewrite <- app_assoc|exact Hp2].
    + rewrite length_app. change (length (lit "github.com/")) with 11.
      change (length (lit "github.com")) with 10.
      destruct p2; [easy|]. cbn [length]. lia.
Qed.

End SearchTheorem.

(** The theorem at a text with the address inside. *)
Example first_occurrence_in_a_sentence :
  extract_repo_info (lit "see " ++ lit "github.com/" ++ lit "octocat" ++ lit "/"
                     ++ lit "hello.git" ++ lit " for docs")
  = (Some (lit "octocat"), Some (lit "hello")).
Proof.
  apply (extract_repo_info_first_occurrence (lit "see ") (lit "octocat")
           (lit "hello.git") (lit " for docs")); try discriminate; try reflexivity.
  - intros c r [= <- _]. reflexivity.
  - intros p1 p2 E Hp2.
    do 5 (destruct p1 as [|? p1]; [cbn [app] in E; subst p2; reflexivity|];
          cbn [app] in E; try discriminate E; injection E as _ E).
Qed.

(** C2 (the code departs from it): a trailing [.git] and a trailing slash
    are removed and an input without the pattern gives [(None, None)], as the
    claim says; but [.git] is removed wherever it occurs in the repository
    segment, so that [foo.github.io] comes back as [foohub.io]. *)
Theorem C2_git_removed_everywhere :
  extract_repo_info (lit "https://github.com/user/foo.github.io")
  = (Some (lit "user"), Some (lit "foohub.io")) /\
  extract_repo_info (lit "https://github.com/user/repo.git/")
  = (Some (lit "user"), Some (lit "repo")) /\
  extract_repo_info (lit "https://example.com/user/repo") = (None, None).
Proof. repeat split; vm_compute; reflexivity. Qed.

(** An input in which the pattern matches nowhere gives [(None, None)]. *)
Lemma extract_repo_info_no_match (github_url : str) :
  re_search (rstrip_chars (lit "/") (strip github_url)) = None ->
  extract_repo_info github_url = (None, None).
Proof. intros H. unfold extract_repo_info. now rewrite H. Qed.

(** C10 (the code departs from it): the pattern is found inside a longer
    text, as the claim says, and the first occurrence is the one returned
    ([extract_repo_info_first_occurrence] proves it for every input); but
    the repository returned is not that of the occurrence when [.git] occurs
    in it (the defect of C2). *)
Theorem C10_interior_occurrence :
  extract_repo_info (lit "see github.com/a/b for docs, not github.com/c/d")
  = (Some (lit "a"), Some (lit "b")) /\
  extract_repo_info (lit "see github.com/a/foo.github.io for docs")
  = (Some (lit "a"), Some (lit "foohub.io")).
Proof. split; vm_compute; reflexivity. Qed.

(** ** The directory listing *)

Section ListingFacts.

Variable unicode_lower : str -> str.

Lemma str_leb_total (a b : str) : str_leb a b = false -> str_leb b a = true.
Proof.
  revert b. induction a as [|x a IH]; intros [|y b]; simpl; try easy.
  destruct (x <? y)%N eqn:Hxy; [easy|].
  destruct (y <? x)%N eqn:Hyx; [easy|]. apply IH.
Qed.

Lemma str_leb_trans (a b c : str) :
  str_leb a b = true -> str_leb b c = true -> str_leb a c = true.
Proof.
  revert b c. induction a as [|x a IH]; intros [|y b] [|z c]; simpl; try easy.
  destruct (x <? y)%N eqn:Hxy, (y <? x)%N eqn:Hyx,
           (y <? z)%N eqn:Hyz, (z <? y)%N eqn:Hzy,
           (x <? z)%N eqn:Hxz, (z <? x)%N eqn:Hzx;
    rewrite ?N.ltb_lt, ?N.ltb_ge in *; try easy; try lia.
  apply IH.
Qed.

Lemma key_le_before (a b : entry) :
  key_le unicode_lower a b <-> before unicode_lower a b.
Proof.
  unfold key_le, before, key_leb, sort_key, is_dir. cbn [fst snd].
  destruct (json_eq_str (type a) (lit "dir")),
           (json_eq_str (type b) (lit "dir")); cbn; split; intros H;
    try (now right); try (now left); try easy;
    destruct H as [[? ?]|[? ?]]; easy.
Qed.

Lemma key_le_total (a b : entry) :
  ~ key_le unicode_lower a b -> key_le unicode_lower b a.
Proof.
  unfold key_le, key_leb, sort_key. cbn [fst snd].
  destruct (json_eq_str (type a) (lit "dir")),
           (json_eq_str (type b) (lit "dir")); cbn; try easy;
    intros H; apply str_leb_total; now destruct (str_leb _ _).
Qed.

Lemma key_le_trans (a b c : entry) :
  key_le unicode_lower a b -> key_le unicode_lower b c ->
  key_le unicode_lower a c.
Proof.
  unfold key_le, key_leb, sort_key. cbn [fst snd].
  destruct (json_eq_str (type a) (lit "dir")),
           (json_eq_str (type b) (lit "dir")),
           (json_eq_str (type c) (lit "dir")); cbn; try easy;
    apply str_leb_trans.
Qed.

Lemma insert_sorted_perm (x : entry) (l : list entry) :
  Permutation (x :: l) (insert_sorted unicode_lower x l).
Proof.
  induction l as [|y l IH]; cbn [insert_sorted]; [reflexivity|].
  destruct (key_leb _ _); [reflexivity|].
  rewrite perm_swap. now apply perm_skip.
Qed.

Lemma sort_structure_perm (l : list entry) :
  Permutation l (sort_structure unicode_lower l).
Proof.
  induction l as [|x l IH]; [reflexivity|].
  cbn [sort_structure foldr]. rewrite <- insert_sorted_perm.
  now apply perm_skip.
Qed.

Lemma insert_sorted_sorted (x : entry) (l : list entry) :
  StronglySorted (key_le unicode_lower) l ->
  StronglySorted (key_le unicode_lower) (insert_sorted unicode_lower x l).
Proof.
  induction 1 as [|y l Hl IH Hy]; cbn [insert_sorted].
  - repeat constructor.
  - destruct (key_leb _ _) eqn:Hxy.
    + constructor; [now constructor|]. constructor; [exact Hxy|].
      eapply Forall_impl; [exact Hy|]. intros z. now apply key_le_trans.
    + constructor; [exact IH|].
      rewrite <- (insert_sorted_perm x l). constructor; [|exact Hy].
      apply key_le_total. unfold key_le. now rewrite Hxy.
Qed.

Lemma sort_structure_sorted (l : list entry) :
  StronglySorted (key_le unicode_lower) (sort_structure unicode_lower l).
Proof.
  induction l as [|x l IH]; [constructor|].
  now apply insert_sorted_sorted.
Qed.

Lemma StronglySorted_iff {A} (R S : A -> A -> Prop) (l : list A) :
  (forall a b, R a b -> S a b) -> StronglySorted R l -> StronglySorted S l.
Proof.
  intros HRS. induction 1 as [|x l Hl IH Hx]; constructor; [exact IH|].
  eapply Forall_impl; [exact Hx|]. intros b. apply HRS.
Qed.

Lemma collect_entries_kept (items : list json) (acc st : list entry) :
  collect_entries unicode_lower items acc = Return st ->
  Forall (fun e => kept unicode_lower e = true) acc ->
  Forall (fun e => kept unicode_lower e = true) st.
Proof.
  revert acc. induction items as [|item items IH]; intros acc; cbn [collect_entries].
  - now intros [= <-].
  - destruct (py_get item (lit "name") (JString [])) as [nm|] eqn:E1; [|easy].
    cbn [mbind outcome_bind].
    destruct (py_get item (lit "type") (JString [])) as [ty|] eqn:E2; [|easy].
    cbn [mbind outcome_bind].
    destruct (py_str_method nm) as [s|] eqn:E3; [|easy].
    cbn [mbind outcome_bind].
    destruct (ignored unicode_lower s) eqn:Hig; [apply IH|].
    destruct (py_get item (lit "path") nm) as [p|] eqn:E4; [|easy].
    cbn [mbind outcome_bind]. intros H Hacc. apply (IH _ H).
    apply Forall_app. split; [exact Hacc|]. constructor; [|constructor].
    unfold kept. cbn [name]. now rewrite Hig.
Qed.

Lemma collect_entries_objects (ms : list (gmap str json)) (acc : list entry) :
  Forall named ms ->
  collect_entries unicode_lower (map JObject ms) acc
  = Return (acc ++ List.filter (kept unicode_lower) (map entry_of ms)).
Proof.
  intros H. revert acc. induction H as [|m ms Hm Hms IH]; intros acc.
  - cbn. now rewrite app_nil_r.
  - cbn [map collect_entries py_get mbind outcome_bind List.filter].
    unfold kept at 1, entry_of at 1. cbn [name].
    destruct Hm as [Hn|[s Hn]]; rewrite Hn; cbn [from_option id py_str_method mbind outcome_bind].
    + destruct (ignored unicode_lower []) eqn:Hig; cbn [negb].
      * apply IH.
      * rewrite IH, <- app_assoc. unfold entry_of. rewrite Hn. reflexivity.
    + destruct (ignored unicode_lower s) eqn:Hig; cbn [negb].
      * apply IH.
      * rewrite IH, <- app_assoc. unfold entry_of. rewrite Hn. reflexivity.
Qed.

(** The test of the code is the exclusion of the specification. *)
Lemma ignored_excluded (e : entry) :
  ignored unicode_lower (name e) = excluded unicode_lower e.
Proof.
  unfold ignored, excluded, str_in.
  induction IGNORE_FOLDERS as [|folder folders IH]; [reflexivity|].
  cbn [map existsb]. now rewrite IH.
Qed.

Lemma excluded_false (e : entry) (folder : str) :
  excluded unicode_lower e = false ->
  In folder IGNORE_FOLDERS ->
  lower unicode_lower (name e) <> lower unicode_lower folder.
Proof.
  unfold excluded. intros H Hin E.
  assert (Ht : existsb
                 (fun f => str_eqb (lower unicode_lower (name e)) (lower unicode_lower f))
                 IGNORE_FOLDERS = true).
  { apply existsb_exists. exists folder. split; [exact Hin|].
    unfold str_eqb. now apply bool_decide_eq_true_2. }
  congruence.
Qed.

Lemma filter_kept_excluded (l : list entry) :
  List.filter (kept unicode_lower) l
  = List.filter (fun e => negb (excluded unicode_lower e)) l.
Proof.
  induction l as [|e l IH]; [reflexivity|].
  cbn [List.filter]. unfold kept at 1. now rewrite ignored_excluded, IH.
Qed.

End ListingFacts.

(** ** The remote-metadata client *)

Section ClientTheorems.

Variable unicode_lower : str -> str.
Variable b64decode_utf8 : str -> option str.
Variable GITHUB_TOKEN : str.
Variable w : world.

(** C6: whatever the listing request does, no entry of the listing that
    [fetch_repo_structure] returns has a name that is, letter case apart, a
    name of [IGNORE_FOLDERS] - so none is named [Node_Modules] - and every
    entry is [before] every later one: directories first, then by lower-case
    name.  When the request answers 200 with a list of objects whose names
    are strings, the listing has exactly the entries that are not
    [excluded]. *)
Theorem C6_listing_filtered_and_sorted (n : nat) (owner repo : str) :
  let listing := fetch_repo_structure unicode_lower w n owner repo in
  (forall e folder,
     In e listing -> In folder IGNORE_FOLDERS ->
     lower unicode_lower (name e) <> lower unicode_lower folder) /\
  (forall e, In e listing -> name e <> lit "Node_Modules") /\
  StronglySorted (before unicode_lower) listing /\
  (forall response items,
     w n (ContentsUrl owner repo) = Responded response ->
     status_code response = 200%Z ->
     json_body response = Decoded (JArray (map JObject items)) ->
     Forall named items ->
     Permutation listing
       (List.filter (fun e => negb (excluded unicode_lower e))
          (map entry_of items))).
Proof.
  cbn zeta.
  assert (Hex : forall e,
            In e (fetch_repo_structure unicode_lower w n owner repo) ->
            excluded unicode_lower e = false).
  { intros e. rewrite <- ignored_excluded. unfold fetch_repo_structure.
    destruct (w n _) as [| |response]; try easy.
    destruct (status_code response =? 200)%Z; [|easy].
    destruct (json_body response) as [contents|]; [|easy].
    destruct (py_iter contents) as [items|]; [|easy]. cbn [mbind outcome_bind].
    destruct (collect_entries unicode_lower items []) as [st|] eqn:E; [|easy].
    intros Hin.
    pose proof (collect_entries_kept unicode_lower items [] st E (Forall_nil_2 _)) as Hk.
    rewrite Forall_forall in Hk.
    assert (He : In e st).
    { eapply Permutation_in; [|exact Hin].
      symmetry. apply sort_structure_perm. }
    apply list_elem_of_In, Hk in He. unfold kept in He.
    now apply negb_true_iff in He. }
  split; [|split; [|split]].
  - intros e folder He. apply excluded_false. now apply Hex.
  - intros e He E.
    apply (excluded_false unicode_lower e (lit "node_modules") (Hex e He)).
    + left. reflexivity.
    + rewrite E. reflexivity.
  - unfold fetch_repo_structure.
    assert (Hnil : StronglySorted (before unicode_lower) []) by constructor.
    destruct (w n _) as [| |response]; try easy.
    destruct (status_code response =? 200)%Z; [|easy].
    destruct (json_body response) as [contents|]; [|easy].
    destruct (_ ≫= _) as [st|]; [|easy].
    eapply StronglySorted_iff; [|apply sort_structure_sorted].
    intros a b. apply key_le_before.
  - unfold fetch_repo_structure.
    intros response items -> Hs Hb Hnamed. rewrite Hs, Hb. cbn [Z.eqb Pos.eqb].
    cbn [py_iter mbind outcome_bind].
    rewrite (collect_entries_objects unicode_lower items [] Hnamed).
    cbn [app]. rewrite filter_kept_excluded. symmetry. apply sort_structure_perm.
Qed.

(** C7: when the repository request answers 403 and the header
    [X-RateLimit-Remaining] is [0], [fetch_github_data] returns no payload
    and the rate-limit message, which advises adding a token when
    [GITHUB_TOKEN] is empty and waiting when it is not; with any other value
    of the header, or without it, the message is that access is forbidden. *)
Theorem C7_rate_limit_messages (owner repo : str) (response : response) :
  w 0 (RepoUrl owner repo) = Responded response ->
  status_code response = 403%Z ->
  let result := fetch_github_data unicode_lower b64decode_utf8 GITHUB_TOKEN w owner repo in
  let remaining := headers response !! lit "X-RateLimit-Remaining" in
  (remaining = Some (lit "0") -> GITHUB_TOKEN = [] ->
   result = Return (None, Some (
     lit "GitHub API rate limit exceeded." ++ [10%N; 10%N]
     ++ [0x1F4A1%N]
     ++ lit " TIP: Add a GitHub token to your .env file to get 5000 requests/hour instead of 60."
     ++ [10%N]
     ++ lit "Get one at: https://github.com/settings/tokens"))) /\
  (remaining = Some (lit "0") -> GITHUB_TOKEN <> [] ->
   result = Return (None, Some (
     lit "GitHub API rate limit exceeded." ++ [10%N; 10%N]
     ++ lit "Please wait a few minutes and try again."))) /\
  (remaining <> Some (lit "0") ->
   result = Return (None, Some (lit "Access forbidden. The repository might be private."))).
Proof.
  intros Hw Hs. cbn zeta. unfold fetch_github_data. rewrite Hw, Hs.
  cbn [Z.eqb Pos.eqb negb]. unfold rate_limit_message, str_eqb.
  repeat split.
  - intros -> ->. cbn [from_option id].
    rewrite !bool_decide_eq_true_2 by reflexivity. reflexivity.
  - intros -> Htok. cbn [from_option id].
    rewrite bool_decide_eq_true_2 by reflexivity.
    rewrite bool_decide_eq_false_2 by exact Htok. reflexivity.
  - intros Hrem. rewrite bool_decide_eq_false_2; [reflexivity|].
    destruct (headers response !! lit "X-RateLimit-Remaining") as [x|];
      cbn [from_option id]; [congruence|].
    intros E. vm_compute in E. discriminate E.
Qed.




End ClientTheorems.

(** ** The theorems at concrete inputs *)

Lemma C5_defaults_and_joined_tech_stack_witness :
  exists m',
    parse_analysis no_case_tables (dq "{'tech_stack':['Go','Redis'],'project_type':'API'}")
    = Return (JObject m') /\
    m' !! lit "what_it_does" = Some (JString (lit "Not available")) /\
    m' !! lit "architecture_mermaid" = Some (JString []) /\
    m' !! lit "tech_stack" = Some (JString (lit "Go, Redis")).
Proof.
  destruct (proj2 (proj2 (proj2 (C5_defaults_and_joined_tech_stack no_case_tables)))
              (dq "{'tech_stack':['Go','Redis'],'project_type':'API'}")
              (<[lit "tech_stack" := JArray [JString (lit "Go"); JString (lit "Redis")]]>
                 (<[lit "project_type" := JString (lit "API")]> ∅)))
    as (m' & Hm' & Hdef & Hjoin).
  - vm_compute. reflexivity.
  - intros v H. vm_compute in H. discriminate H.
  - intros items H. vm_compute in H. injection H as <-. reflexivity.
  - exists m'. split; [exact Hm'|]. split; [|split].
    + apply (Hdef (lit "what_it_does")); [vm_compute; tauto|vm_compute; reflexivity].
    + apply (Hdef (lit "architecture_mermaid")); [vm_compute; tauto|vm_compute; reflexivity].
    + apply (Hjoin [lit "Go"; lit "Redis"]). vm_compute. reflexivity.
Defined.

Lemma C9_diagram_empty_or_graph_witness :
  (exists m' x,
     parse_analysis no_case_tables (dq "{'architecture_mermaid':'A-->B'}")
     = Return (JObject m') /\
     m' !! lit "architecture_mermaid" = Some (JString x) /\
     (x = [] \/ startswith x (lit "graph") = true))
  \/
  (parse_analysis no_case_tables (dq "{'architecture_mermaid':'A-->B'}")
   = Raise TypeError /\
   exists items,
     (<[lit "architecture_mermaid" := JString (lit "A-->B")]> ∅ : gmap str json)
       !! lit "tech_stack" = Some (JArray items) /\
     all_strings items = false).
Proof.
  apply (C9_diagram_empty_or_graph no_case_tables
           (dq "{'architecture_mermaid':'A-->B'}")
           (<[lit "architecture_mermaid" := JString (lit "A-->B")]> ∅)).
  - vm_compute. reflexivity.
  - right. exists (lit "A-->B"). vm_compute. reflexivity.
Defined.

Lemma C6_listing_filtered_and_sorted_witness :
  Permutation
    (map name
       (fetch_repo_structure no_case_tables w_listing 2 (lit "octocat") (lit "demo")))
    [lit "setup.py"; lit "src"; lit "README.md"; lit "Docs"] /\
  forall e,
    In e (fetch_repo_structure no_case_tables w_listing 2 (lit "octocat") (lit "demo")) ->
    name e <> lit "Node_Modules".
Proof.
  split.
  - replace [lit "setup.py"; lit "src"; lit "README.md"; lit "Docs"]
      with (map name
              (List.filter (fun e => negb (excluded no_case_tables e))
                 (map entry_of sample_items)))
      by (vm_compute; reflexivity).
    apply Permutation_map.
    apply (proj2 (proj2 (proj2 (C6_listing_filtered_and_sorted no_case_tables
                                  w_listing 2 (lit "octocat") (lit "demo"))))
             (ok_response (JArray (map JObject sample_items))) sample_items).
    + reflexivity.
    + reflexivity.
    + reflexivity.
    + unfold sample_items.
      repeat (constructor; [right; eexists; vm_compute; reflexivity|]).
      constructor.
  - apply (proj1 (proj2 (C6_listing_filtered_and_sorted no_case_tables
                           w_listing 2 (lit "octocat") (lit "demo")))).
Defined.

Lemma C7_rate_limit_messages_witness :
  fetch_github_data no_case_tables no_b64 [] (w_forbidden (lit "0"))
    (lit "octocat") (lit "demo")
  = Return (None, Some (
      lit "GitHub API rate limit exceeded." ++ [10%N; 10%N]
      ++ [0x1F4A1%N]
      ++ lit " TIP: Add a GitHub token to your .env file to get 5000 requests/hour instead of 60."
      ++ [10%N]
      ++ lit "Get one at: https://github.com/settings/tokens")) /\
  fetch_github_data no_case_tables no_b64 (lit "ghp_token") (w_forbidden (lit "0"))
    (lit "octocat") (lit "demo")
  = Return (None, Some (
      lit "GitHub API rate limit exceeded." ++ [10%N; 10%N]
      ++ lit "Please wait a few minutes and try again.")) /\
  fetch_github_data no_case_tables no_b64 [] (w_forbidden (lit "12"))
    (lit "octocat") (lit "demo")
  = Return (None, Some (lit "Access forbidden. The repository might be private.")).
Proof.
  split; [|split].
  - apply (C7_rate_limit_messages no_case_tables no_b64 [] (w_forbidden (lit "0"))
             (lit "octocat") (lit "demo") _ eq_refl eq_refl); reflexivity.
  - apply (C7_rate_limit_messages no_case_tables no_b64 (lit "ghp_token")
             (w_forbidden (lit "0")) (lit "octocat") (lit "demo") _ eq_refl eq_refl).
    + reflexivity.
    + discriminate.
  - apply (C7_rate_limit_messages no_case_tables no_b64 [] (w_forbidden (lit "12"))
             (lit "octocat") (lit "demo") _ eq_refl eq_refl).
    intros E. vm_compute in E. discriminate E.
Defined.


(** The listing of the sample: [Node_Modules] and [.GIT] are left out, the
    directories come first, and [Docs] comes before [src]. *)
Example sample_listing :
  map name (fetch_repo_structure no_case_tables w_listing 2 (lit "octocat") (lit "demo"))
  = [lit "Docs"; lit "src"; lit "README.md"; lit "setup.py"].
Proof. vm_compute. reflexivity. Qed.

(** With the sample listing, the one dependency file found is fetched from
    the first branch. *)
Example sample_dependencies :
  (fetch_dependency_files w_listing 3 (lit "octocat") (lit "demo")
     (fetch_repo_structure no_case_tables w_listing 2 (lit "octocat") (lit "demo")) ∅)
  = (<[lit "setup.py" := []]> ∅, 4).
Proof. vm_compute. reflexivity. Qed.

(** ** Examples *)

Example json_loads_object :
  json_loads (dq "{'a': [1, true, null, 'x\n'], 'b': {}, 'a': -2.5e3}")
  = Some (JObject (<[lit "a" := JNumber (lit "-2.5e3")]>
                     (<[lit "b" := JObject ∅]> ∅))).
Proof. vm_compute. reflexivity. Qed.

Example json_loads_errors :
  map json_loads
    [dq "{'a': 1,}"; dq "[1 2]"; dq "01"; dq "'abc"; dq "{} x"; lit ""; dq "1."]
  = [None; None; None; None; None; None; None].
Proof. vm_compute. reflexivity. Qed.

Example extract_plain :
  map extract_repo_info
    [lit "https://github.com/octocat/Hello-World";
     lit "  http://www.github.com/octocat/hello.git/  ";
     lit "github.com/a/b/tree/main?x=1";
     lit "https://gitlab.com/a/b";
     lit "https://github.com/a"]
  = [(Some (lit "octocat"), Some (lit "Hello-World"));
     (Some (lit "octocat"), Some (lit "hello"));
     (Some (lit "a"), Some (lit "b"));
     (None, None);
     (None, None)].
Proof. vm_compute. reflexivity. Qed.

(** * Further properties *)

(** ** The repository-reference parser *)

Section ParserProperties.

#[local] Arguments lit : simpl never.

(** A successful run of [m_plus] captured a non-empty run of [cls] and
    handed it to the continuation. *)
Lemma m_plus_inv {R : Type} (cls : N -> bool) (k : str -> str -> option R)
    (s acc : str) (x : R) :
  m_plus cls k acc s = Some x ->
  exists run rest,
    s = run ++ rest /\ run <> [] /\ forallb cls run = true /\
    k (acc ++ run) rest = Some x.
Proof.
  revert acc. induction s as [|c s IH]; intros acc; cbn [m_plus]; [easy|].
  destruct (cls c) eqn:Hc; [|easy].
  destruct (m_plus cls k (acc ++ [c]) s) as [y|] eqn:E.
  - intros [= ->]. destruct (IH _ E) as (run & rest & -> & _ & Hrun & Hk).
    exists (c :: run), rest. split; [reflexivity|]. split; [discriminate|].
    split; [cbn [forallb]; now rewrite Hc|].
    now rewrite <- app_assoc in Hk.
  - intros Hk. exists [c], s. split; [reflexivity|]. split; [discriminate|].
    split; [cbn [forallb]; now rewrite Hc|exact Hk].
Qed.

Lemma host_and_groups_inv (t owner repo : str) :
  host_and_groups t = Some (owner, repo) ->
  exists rest,
    t = lit "github.com/" ++ owner ++ lit "/" ++ repo ++ rest /\
    owner <> [] /\ forallb not_slash owner = true /\
    repo <> [] /\ forallb repo_char repo = true.
Proof.
  unfold host_and_groups, m_lit at 1.
  destruct (strip_prefix (lit "github.com/") t) as [u|] eqn:E; [|easy].
  apply strip_prefix_split in E. subst t. intros H.
  apply m_plus_inv in H. destruct H as (o & r1 & -> & Ho & Ho' & H).
  cbn [app] in H. unfold m_lit in H.
  destruct (strip_prefix (lit "/") r1) as [r2|] eqn:E2; [|easy].
  apply strip_prefix_split in E2. subst r1.
  apply m_plus_inv in H. destruct H as (r & rest & -> & Hr & Hr' & H).
  cbn [app] in H. injection H as <- <-.
  exists rest. rewrite <- ?app_assoc. now repeat split.
Qed.

Lemma re_search_inv (s : str) (m : str * str) :
  re_search s = Some m ->
  exists pre t, s = pre ++ t /\ host_and_groups t = Some m.
Proof.
  induction s as [|c s IH]; cbn [re_search].
  - destruct (match_here []) as [m'|] eqn:E; [|easy]. intros [= ->].
    destruct (match_here_prefix _ _ E) as (pfx & t & _ & -> & Ht). eauto.
  - destruct (match_here (c :: s)) as [m'|] eqn:E.
    + intros [= ->].
      destruct (match_here_prefix _ _ E) as (pfx & t & _ & -> & Ht). eauto.
    + intros H. destruct (IH H) as (pre & t & -> & Ht).
      exists (c :: pre), t. now split.
Qed.

Lemma replace_from_forallb (p : N -> bool) (old : str) (skip : nat) (s : str) :
  forallb p s = true -> forallb p (replace_from old [] skip s) = true.
Proof.
  revert skip. induction s as [|c s IH]; intros skip; [reflexivity|].
  cbn [forallb replace_from]. rewrite andb_true_iff. intros [Hc Hs].
  destruct skip as [|k]; [|now apply IH].
  destruct (startswith (c :: s) old); cbn [app forallb].
  - now apply IH.
  - now rewrite Hc, IH.
Qed.

Lemma extract_repo_info_inv (github_url owner repo : str) :
  extract_repo_info github_url = (Some owner, Some repo) ->
  exists segment,
    repo = replace segment (lit ".git") [] /\
    owner <> [] /\ forallb not_slash owner = true /\
    segment <> [] /\ forallb repo_char segment = true.
Proof.
  unfold extract_repo_info.
  destruct (re_search _) as [[o r]|] eqn:E; [|easy]. intros [= <- <-].
  destruct (re_search_inv _ _ E) as (pre & t & _ & Ht).
  destruct (host_and_groups_inv _ _ _ Ht) as (rest & _ & Ho & Ho' & Hr & Hr').
  now exists r.
Qed.

Lemma extract_repo_info_owner (github_url owner repo : str) :
  extract_repo_info github_url = (Some owner, Some repo) -> owner <> [].
Proof.
  unfold extract_repo_info.
  destruct (re_search _) as [[o r]|] eqn:E; [|easy]. intros [= <- <-].
  destruct (re_search_inv _ _ E) as (pre & t & _ & Ht).
  now destruct (host_and_groups_inv _ _ _ Ht) as (rest & _ & Ho & _).
Qed.

(** What [extract_repo_info] returns, when it returns a pair of names:
    an owner that is not empty and has no [/], and a repository without [/],
    white space, [?] or [#]. *)
Theorem extract_repo_info_names (github_url owner repo : str) :
  extract_repo_info github_url = (Some owner, Some repo) ->
  owner <> [] /\ forallb not_slash owner = true /\ forallb repo_char repo = true.
Proof.
  unfold extract_repo_info.
  destruct (re_search _) as [[o r]|] eqn:E; [|easy]. intros [= <- <-].
  destruct (re_search_inv _ _ E) as (pre & t & _ & Ht).
  destruct (host_and_groups_inv _ _ _ Ht) as (rest & _ & Ho & Ho' & _ & Hr).
  repeat split; [exact Ho|exact Ho'|]. now apply replace_from_forallb.
Qed.

(** The two components are absent together. *)
Lemma extract_repo_info_both (github_url : str) :
  (exists owner repo, extract_repo_info github_url = (Some owner, Some repo)) \/
  extract_repo_info github_url = (None, None).
Proof.
  unfold extract_repo_info. destruct (re_search _) as [[o r]|]; eauto.
Qed.

Lemma has_infix_intro (a p b : str) : has_infix (a ++ p ++ b) p = true.
Proof.
  induction a as [|c a IH].
  - cbn [app]. destruct (p ++ b) eqn:E; cbn [has_infix];
      rewrite <- E, startswith_app; reflexivity.
  - cbn [app has_infix]. rewrite IH. apply orb_true_r.
Qed.

Lemma has_infix_elim (s p : str) :
  has_infix s p = true -> exists a b, s = a ++ p ++ b.
Proof.
  induction s as [|c s IH]; cbn [has_infix].
  - rewrite orb_false_r. intros H. apply startswith_split in H.
    exists [], (skipn (length p) []). exact H.
  - intros H. apply orb_true_iff in H as [H|H].
    + apply startswith_split in H. exists [], (skipn (length p) (c :: s)). exact H.
    + destruct (IH H) as (a & b & ->). exists (c :: a), b. reflexivity.
Qed.

(** A text in which [github.com/] does not occur gives [(None, None)]. *)
Theorem extract_repo_info_needs_host (github_url : str) :
  has_infix github_url (lit "github.com/") = false ->
  extract_repo_info github_url = (None, None).
Proof.
  intros Hno. unfold extract_repo_info.
  destruct (re_search _) as [[o r]|] eqn:E; [|reflexivity].
  destruct (re_search_inv _ _ E) as (pre & t & Hs & Ht).
  apply host_and_groups_startswith, startswith_split in Ht.
  unfold rstrip_chars, strip in Hs.
  destruct (rstrip_by_prefix (fun c => existsb (N.eqb c) (lit "/"))
              (rstrip_by isspace (lstrip_by isspace github_url))) as (w1 & E1).
  destruct (rstrip_by_prefix isspace (lstrip_by isspace github_url)) as (w2 & E2).
  destruct (lstrip_by_split isspace github_url) as (w0 & E0 & _).
  rewrite Hs in E1. rewrite E1 in E2. rewrite E2 in E0.
  rewrite Ht in E0.
  rewrite E0 in Hno.
  replace (w0 ++ ((pre ++ lit "github.com/" ++ skipn (length (lit "github.com/")) t) ++ w1) ++ w2)
    with ((w0 ++ pre) ++ lit "github.com/"
          ++ (skipn (length (lit "github.com/")) t ++ w1 ++ w2)) in Hno
    by (rewrite <- !app_assoc; reflexivity).
  now rewrite has_infix_intro in Hno.
Qed.

(** White space around the text does not change the result. *)
Theorem extract_repo_info_surrounding_space (ws1 github_url ws2 : str) :
  forallb isspace ws1 = true -> forallb isspace ws2 = true ->
  extract_repo_info (ws1 ++ github_url ++ ws2) = extract_repo_info github_url.
Proof.
  intros H1 H2. unfold extract_repo_info.
  now rewrite strip_app_space_l, strip_app_space_r.
Qed.

End ParserProperties.

(** ** The response normalizer *)

Section NormalizerProperties.

Variable unicode_lower : str -> str.

(** The record returned for a decoded object, written out: the defaults,
    then the repaired diagram [x], then the joined technologies. *)
Lemma parse_analysis_result (text : str) (m : gmap str json) :
  json_loads (clean_text text) = Some (JObject m) ->
  (forall v, m !! lit "architecture_mermaid" = Some v -> exists s, v = JString s) ->
  (forall items, m !! lit "tech_stack" = Some (JArray items) ->
                 all_strings items = true) ->
  exists x base,
    base = <[lit "architecture_mermaid" := JString x]> (fill_map default_keys m) /\
    (x = [] \/ startswith x (lit "graph") = true) /\
    ((exists parts,
        m !! lit "tech_stack" = Some (JArray (map JString parts)) /\
        parse_analysis unicode_lower text
        = Return (JObject (<[lit "tech_stack" := JString (join (lit ", ") parts)]> base)))
     \/
     ((forall items, m !! lit "tech_stack" <> Some (JArray items)) /\
      parse_analysis unicode_lower text = Return (JObject base))).
Proof.
  intros Hload Hdiag Hlist.
  destruct (parse_analysis_shape unicode_lower text m Hload Hdiag)
    as (x & ts & Hx & _ & Hts & -> & Hts').
  exists x, (<[lit "architecture_mermaid" := JString x]> (fill_map default_keys m)).
  split; [reflexivity|]. split; [exact Hx|].
  rewrite (join_tech_stack_object _ _ Hts').
  destruct ts as [| | | |items|];
    try (right; split; [apply (fill_map_not_array m _ Hts); discriminate|reflexivity]).
  pose proof (fill_map_array m items Hts) as Hm.
  destruct (all_strings_map items (Hlist items Hm)) as [parts ->].
  rewrite py_join_items_strings. left. exists parts. now split.
Qed.

(** A value that the decoded object has under a key is in the record
    returned, except under the two keys that the normalizer rewrites: the
    diagram, and the technologies when they are a list.  Defaults never
    replace a value. *)
Theorem parse_analysis_keeps_values (text : str) (m : gmap str json) :
  json_loads (clean_text text) = Some (JObject m) ->
  (forall v, m !! lit "architecture_mermaid" = Some v -> exists s, v = JString s) ->
  (forall items, m !! lit "tech_stack" = Some (JArray items) ->
                 all_strings items = true) ->
  exists m',
    parse_analysis unicode_lower text = Return (JObject m') /\
    (forall key v,
       m !! key = Some v ->
       key <> lit "architecture_mermaid" ->
       (key = lit "tech_stack" -> forall items, v <> JArray items) ->
       m' !! key = Some v) /\
    (forall key, m !! key = None -> ~ In key default_keys -> m' !! key = None).
Proof.
  intros Hload Hdiag Hlist.
  destruct (parse_analysis_result text m Hload Hdiag Hlist)
    as (x & base & -> & _ & [(parts & Hm & ->) | (Hne & ->)]);
    eexists; (split; [reflexivity|]); split.
  - intros key v Hkey Hk1 Hk2.
    destruct (decide (key = lit "tech_stack")) as [->|Hk3].
    + rewrite Hm in Hkey. injection Hkey as <-.
      now destruct (Hk2 eq_refl (map JString parts)).
    + rewrite !lookup_insert_ne by congruence. now apply fill_map_present.
  - intros key Hkey Hnin.
    assert (Hin : str_in key default_keys = false).
    { apply not_true_is_false. intros H. apply Hnin.
      apply existsb_exists in H as (k & Hk & E).
      apply bool_decide_eq_true_1 in E. now subst k. }
    rewrite !lookup_insert_ne
      by (intros <-; apply Hnin; vm_compute; tauto).
    now rewrite fill_map_lookup, Hkey, Hin.
  - intros key v Hkey Hk1 _.
    rewrite lookup_insert_ne by congruence. now apply fill_map_present.
  - intros key Hkey Hnin.
    assert (Hin : str_in key default_keys = false).
    { apply not_true_is_false. intros H. apply Hnin.
      apply existsb_exists in H as (k & Hk & E).
      apply bool_decide_eq_true_1 in E. now subst k. }
    rewrite lookup_insert_ne by (intros <-; apply Hnin; vm_compute; tauto).
    now rewrite fill_map_lookup, Hkey, Hin.
Qed.

(** In the record returned for a decoded object, the diagram is a string
    and the technologies are not a list. *)
Theorem parse_analysis_field_types (text : str) (m : gmap str json) :
  json_loads (clean_text text) = Some (JObject m) ->
  (forall v, m !! lit "architecture_mermaid" = Some v -> exists s, v = JString s) ->
  (forall items, m !! lit "tech_stack" = Some (JArray items) ->
                 all_strings items = true) ->
  exists m' x ts,
    parse_analysis unicode_lower text = Return (JObject m') /\
    m' !! lit "architecture_mermaid" = Some (JString x) /\
    m' !! lit "tech_stack" = Some ts /\
    (forall items, ts <> JArray items).
Proof.
  intros Hload Hdiag Hlist.
  destruct (parse_analysis_result text m Hload Hdiag Hlist)
    as (x & base & -> & _ & [(parts & Hm & ->) | (Hne & ->)]).
  - eexists _, x, _. split; [reflexivity|]. split; [now lookup_field|].
    split; [now lookup_field|discriminate].
  - assert (Hts : exists ts, fill_map default_keys m !! lit "tech_stack" = Some ts).
    { rewrite fill_map_lookup. destruct (m !! lit "tech_stack"); eauto. }
    destruct Hts as [ts Hts].
    eexists _, x, ts. split; [reflexivity|]. split; [now lookup_field|].
    split; [lookup_field; exact Hts|].
    intros items ->. apply fill_map_array in Hts. now apply (Hne items).
Qed.

(** On a text that [json.loads] refuses, the record has the error text in
    four fields, an empty diagram, and a summary made of the error text, the
    first hundred characters of the text given, and an ellipsis; the summary
    has at most 127 characters. *)
Theorem parse_analysis_error_record (text : str) :
  json_loads (clean_text text) = None ->
  let r := parse_analysis unicode_lower text in
  field r (lit "architecture_mermaid") = Some (JString []) /\
  (forall key,
     In key [lit "tech_stack"; lit "project_type";
             lit "architecture_description"; lit "what_it_does"] ->
     field r key = Some (JString (lit "Error parsing analysis"))) /\
  exists summary,
    field r (lit "recruiter_summary") = Some (JString summary) /\
    summary = lit "Error parsing analysis: " ++ firstn 100 text ++ lit "..." /\
    length summary <= 127 /\
    (length text <= 100 ->
     summary = lit "Error parsing analysis: " ++ text ++ lit "...").
Proof.
  intros H. cbn zeta. unfold parse_analysis. rewrite H. cbn [field].
  unfold error_record. split; [now lookup_field|]. split.
  - intros key Hin.
    destruct Hin as [<-|[<-|[<-|[<-|[]]]]]; now lookup_field.
  - eexists. split; [now lookup_field|]. unfold slice_to.
    split; [reflexivity|]. split.
    + rewrite !length_app, length_firstn.
      change (length (lit "Error parsing analysis: ")) with 24.
      change (length (lit "...")) with 3. lia.
    + intros Hlen. now rewrite firstn_all2.
Qed.

(** White space around a text that decodes does not change the result.
    (Around a text that does not decode it does: the summary of the error
    record quotes the text as given.) *)
Theorem parse_analysis_surrounding_space (ws1 j ws2 : str) (v : json) :
  forallb isspace ws1 = true -> forallb isspace ws2 = true ->
  json_loads (clean_text j) = Some v ->
  parse_analysis unicode_lower (ws1 ++ j ++ ws2) = parse_analysis unicode_lower j.
Proof.
  intros H1 H2 Hv.
  assert (Hc : clean_text (ws1 ++ j ++ ws2) = clean_text j).
  { unfold clean_text. now rewrite strip_app_space_l, strip_app_space_r. }
  unfold parse_analysis. now rewrite Hc, Hv.
Qed.

End NormalizerProperties.

Section DiagramProperties.

Variable unicode_lower : str -> str.

Lemma replace_from_skip (old new : str) (k : nat) (s : str) :
  replace_from old new k s = replace_from old new 0 (skipn k s).
Proof.
  revert s. induction k as [|k IH]; intros s; [reflexivity|].
  destruct s as [|c s]; [reflexivity|]. cbn [replace_from skipn]. apply IH.
Qed.

Lemma replace_fence_step (c : N) (s : str) :
  startswith (c :: s) fence = false ->
  replace (c :: s) fence [] = c :: replace s fence [].
Proof. intros H. unfold replace. cbn [replace_from]. now rewrite H. Qed.

Lemma replace_fence_drop (s : str) :
  replace (fence ++ s) fence [] = replace s fence [].
Proof. reflexivity. Qed.

Lemma not_backtick_eqb (c : N) : (c =? 96)%N = false -> (96 =? c)%N = false.
Proof. now rewrite N.eqb_sym. Qed.

(** After every fence marker was removed, none is left: the removal goes
    through a run of backticks three at a time and leaves fewer than
    three. *)
Lemma replace_fence_none (n : nat) :
  forall s, length s <= n -> has_infix (replace s fence []) fence = false.
Proof.
  induction n as [|n IH]; intros s Hlen.
  - destruct s; [reflexivity|cbn in Hlen; lia].
  - destruct s as [|c1 s1]; [reflexivity|].
    destruct (c1 =? 96)%N eqn:H1.
    + apply N.eqb_eq in H1. subst c1.
      destruct s1 as [|c2 s2]; [reflexivity|].
      destruct (c2 =? 96)%N eqn:H2.
      * apply N.eqb_eq in H2. subst c2.
        destruct s2 as [|c3 s3]; [reflexivity|].
        destruct (c3 =? 96)%N eqn:H3.
        -- apply N.eqb_eq in H3. subst c3.
           change (96%N :: 96%N :: 96%N :: s3) with (fence ++ s3).
           rewrite replace_fence_drop. apply IH. cbn in Hlen. lia.
        -- apply not_backtick_eqb in H3.
           rewrite replace_fence_step
             by (change fence with [96%N; 96%N; 96%N]; cbn [startswith];
                 now rewrite H3, !andb_false_r).
           rewrite replace_fence_step
             by (change fence with [96%N; 96%N; 96%N]; cbn [startswith];
                 now rewrite H3, !andb_false_r).
           rewrite replace_fence_step
             by (change fence with [96%N; 96%N; 96%N]; cbn [startswith];
                 now rewrite H3).
           change fence with [96%N; 96%N; 96%N] at 2.
           cbn [has_infix startswith]. rewrite H3, !andb_false_r. cbn [orb].
           apply IH. cbn in Hlen. lia.
      * apply not_backtick_eqb in H2.
        rewrite replace_fence_step
          by (change fence with [96%N; 96%N; 96%N]; cbn [startswith];
              now rewrite H2, !andb_false_r).
        rewrite replace_fence_step
          by (change fence with [96%N; 96%N; 96%N]; cbn [startswith];
              now rewrite H2).
        change fence with [96%N; 96%N; 96%N] at 2.
        cbn [has_infix startswith]. rewrite H2, !andb_false_r. cbn [orb].
        apply IH. cbn in Hlen. lia.
    + apply not_backtick_eqb in H1.
      rewrite replace_fence_step
        by (change fence with [96%N; 96%N; 96%N]; cbn [startswith];
            now rewrite H1).
      change fence with [96%N; 96%N; 96%N] at 2.
      cbn [has_infix startswith]. rewrite H1. cbn [andb orb].
      apply IH. cbn in Hlen. lia.
Qed.

Lemma has_infix_false_part (a s b p : str) :
  has_infix (a ++ s ++ b) p = false -> has_infix s p = false.
Proof.
  intros H. destruct (has_infix s p) eqn:E; [|reflexivity].
  destruct (has_infix_elim _ _ E) as (x & y & ->).
  replace (a ++ (x ++ p ++ y) ++ b) with ((a ++ x) ++ p ++ (y ++ b)) in H
    by (rewrite <- !app_assoc; reflexivity).
  now rewrite has_infix_intro in H.
Qed.

Lemma strip_part (s : str) : exists a b, s = a ++ strip s ++ b.
Proof.
  unfold strip.
  destruct (lstrip_by_split isspace s) as (a & Ea & _).
  destruct (rstrip_by_prefix isspace (lstrip_by isspace s)) as (b & Eb).
  exists a, b. now rewrite <- Eb.
Qed.

Lemma has_infix_plain_prefix (p c f : str) :
  plain p = true -> has_infix (p ++ c) (96%N :: f) = has_infix c (96%N :: f).
Proof.
  intros Hp. induction p as [|a p IH]; [reflexivity|].
  cbn [plain forallb] in Hp. apply andb_true_iff in Hp as [Ha Hp].
  cbn [app has_infix startswith].
  apply negb_true_iff, not_backtick_eqb in Ha. rewrite Ha. cbn [andb orb].
  now apply IH.
Qed.

(** The diagram that [repair_mermaid] stores has no fence marker in it. *)
Lemma repair_mermaid_no_fence (m : gmap str json) (s : str) :
  m !! lit "architecture_mermaid" = Some (JString s) ->
  exists x,
    repair_mermaid unicode_lower (JObject m)
    = Return (JObject (<[lit "architecture_mermaid" := JString x]> m)) /\
    has_infix x fence = false.
Proof.
  intros Hm. unfold repair_mermaid.
  cbn [py_getitem mbind outcome_bind]. rewrite Hm.
  cbn [py_str_method py_setitem mbind outcome_bind].
  set (r := replace (replace s (lit "```mermaid") []) fence []).
  assert (Hr : has_infix (strip r) fence = false).
  { destruct (strip_part r) as (a & b & E).
    apply (has_infix_false_part a _ b). rewrite <- E.
    now apply (replace_fence_none _ _ (le_n _)). }
  set (c := strip r) in *.
  set (x := if negb (str_eqb c []) && negb (startswith c (lit "graph"))
            then lit "graph TD;" ++ [10%N] ++ c else c).
  assert (Hx : has_infix x fence = false).
  { subst x. destruct (_ && _); [|exact Hr].
    rewrite app_assoc. change fence with (96%N :: [96%N; 96%N]).
    now rewrite has_infix_plain_prefix. }
  destruct (str_eqb (lower unicode_lower x) (lit "not available")).
  - exists []. rewrite insert_insert_eq. now split.
  - exists x. now split.
Qed.

(** The diagram of the record returned for a decoded object never contains
    a fence marker. *)
Theorem parse_analysis_diagram_without_fence (text : str) (m : gmap str json) :
  json_loads (clean_text text) = Some (JObject m) ->
  (forall v, m !! lit "architecture_mermaid" = Some v -> exists s, v = JString s) ->
  (forall items, m !! lit "tech_stack" = Some (JArray items) ->
                 all_strings items = true) ->
  exists m' x,
    parse_analysis unicode_lower text = Return (JObject m') /\
    m' !! lit "architecture_mermaid" = Some (JString x) /\
    has_infix x fence = false.
Proof.
  intros Hload Hdiag Hlist. rewrite (parse_analysis_object _ _ _ Hload).
  assert (Hd : exists s, fill_map default_keys m !! lit "architecture_mermaid"
                         = Some (JString s)).
  { rewrite fill_map_lookup.
    destruct (m !! lit "architecture_mermaid") as [v|] eqn:E.
    - destruct (Hdiag v eq_refl) as [s ->]. eauto.
    - vm_compute. eauto. }
  destruct Hd as [s Hs].
  destruct (repair_mermaid_no_fence _ s Hs) as (x & -> & Hx).
  cbn [mbind outcome_bind].
  assert (Hts : exists ts,
    (<[lit "architecture_mermaid" := JString x]> (fill_map default_keys m))
      !! lit "tech_stack" = Some ts /\
    fill_map default_keys m !! lit "tech_stack" = Some ts).
  { rewrite lookup_insert_ne by lit_neq. rewrite fill_map_lookup.
    destruct (m !! lit "tech_stack"); eauto. }
  destruct Hts as (ts & Hts & Hts').
  rewrite (join_tech_stack_object _ _ Hts).
  destruct ts as [| | | |items|];
    try (eexists _, x; split; [reflexivity|]; split; [now lookup_field|exact Hx]).
  pose proof (fill_map_array m items Hts') as Hm.
  destruct (all_strings_map items (Hlist items Hm)) as [parts ->].
  rewrite py_join_items_strings.
  eexists _, x. split; [reflexivity|]. split; [now lookup_field|exact Hx].
Qed.

End DiagramProperties.

(** ** The remote-metadata client *)

Section ClientProperties.

Variable unicode_lower : str -> str.
Variable b64decode_utf8 : str -> option str.
Variable GITHUB_TOKEN : str.
Variable w : world.

Lemma slice_to_length (n : nat) (s : str) : length (slice_to n s) <= n.
Proof. unfold slice_to. rewrite length_firstn. lia. Qed.

Lemma fetch_readme_inv (n : nat) (owner repo readme : str) :
  fetch_readme b64decode_utf8 w n owner repo = Some readme ->
  exists response data content decoded,
    w n (ReadmeUrl owner repo) = Responded response /\
    status_code response = 200%Z /\
    json_body response = Decoded (JObject data) /\
    data !! lit "content" = Some (JString content) /\ content <> [] /\
    (data !! lit "encoding" = None \/
     data !! lit "encoding" = Some (JString (lit "base64"))) /\
    b64decode_utf8 content = Some decoded /\
    readme = slice_to 8000 decoded.
Proof.
  unfold fetch_readme. generalize 8000. intros cap.
  destruct (w n _) as [| |response] eqn:Hw; try easy.
  destruct (status_code response =? 200)%Z eqn:Hs; [|easy].
  apply Z.eqb_eq in Hs.
  destruct (json_body response) as [data|] eqn:Hb; [|easy].
  destruct data as [| | | | |data]; try easy.
  cbn [py_get mbind outcome_bind].
  destruct (data !! lit "content") as [c|] eqn:Hc; cbn [from_option id].
  - destruct c as [| | |content| |]; try easy.
    destruct (json_eq_str _ _) eqn:He; [|easy].
    unfold str_eqb at 1. case_bool_decide as Hne; [easy|]. cbn [negb andb].
    destruct (b64decode_utf8 content) as [decoded|] eqn:Hd; [|easy].
    intros H. apply (inj Some) in H.
    exists response, data, content, decoded.
    split; [reflexivity|]. split; [exact Hs|]. split; [exact Hb|].
    split; [exact Hc|]. split; [exact Hne|].
    split; [|split; [exact Hd|now rewrite H]].
    destruct (data !! lit "encoding") as [e|]; [|now left]. right.
    cbn [from_option id] in He. destruct e; try easy.
    cbn [json_eq_str] in He. apply bool_decide_eq_true_1 in He. now subst.
  - unfold str_eqb. rewrite bool_decide_eq_true_2 by reflexivity.
    now rewrite andb_false_r.
Qed.

(** A README is returned only for an answer 200 whose body is an object
    with a non-empty string [content] and the encoding [base64] (or none
    given); it is the decoded text cut to 8000 characters. *)
Theorem fetch_readme_some (n : nat) (owner repo readme : str) :
  fetch_readme b64decode_utf8 w n owner repo = Some readme ->
  length readme <= 8000 /\
  exists response data content decoded,
    w n (ReadmeUrl owner repo) = Responded response /\
    status_code response = 200%Z /\
    json_body response = Decoded (JObject data) /\
    data !! lit "content" = Some (JString content) /\ content <> [] /\
    (data !! lit "encoding" = None \/
     data !! lit "encoding" = Some (JString (lit "base64"))) /\
    b64decode_utf8 content = Some decoded /\
    readme = slice_to 8000 decoded.
Proof.
  intros H. apply fetch_readme_inv in H. split; [|exact H].
  destruct H as (_ & _ & _ & decoded & _ & _ & _ & _ & _ & _ & _ & ->).
  apply slice_to_length.
Qed.

Lemma fetch_from_branches_spec (n : nat) (owner repo : str) (item : entry)
    (branches : list str) :
  let '(found, n') := fetch_from_branches w n owner repo item branches in
  n <= n' <= n + length branches /\
  (forall content, found = Some content -> length content <= 4000) /\
  (found = None -> n' = n + length branches).
Proof.
  revert n. induction branches as [|branch rest IH]; intros n;
    cbn [fetch_from_branches length].
  - repeat split; try lia. easy.
  - assert (Hnext :
      let '(found, n') := fetch_from_branches w (S n) owner repo item rest in
      n <= n' <= n + S (length rest) /\
      (forall content, found = Some content -> length content <= 4000) /\
      (found = None -> n' = n + S (length rest))).
    { specialize (IH (S n)).
      destruct (fetch_from_branches w (S n) owner repo item rest) as [found n'].
      destruct IH as (H1 & H2 & H3). repeat split; try lia; [exact H2|].
      intros H. specialize (H3 H). lia. }
    destruct (w n _) as [| |response]; try exact Hnext.
    destruct (status_code response =? 200)%Z; [|exact Hnext].
    repeat split; try lia; [|easy].
    intros content H. apply (inj Some) in H. rewrite <- H. apply slice_to_length.
Qed.

Lemma fetch_dependency_files_inv (n : nat) (owner repo : str)
    (structure : list entry) (dependencies : gmap str str) :
  let '(result, n') :=
    fetch_dependency_files w n owner repo structure dependencies in
  n <= n' <= n + 2 * length structure /\
  forall file content,
    result !! file = Some content ->
    dependencies !! file = Some content \/
    (str_in file DEPENDENCY_FILES = true /\
     length content <= 4000 /\
     exists item,
       In item structure /\ name item = file /\
       json_eq_str (type item) (lit "file") = true).
Proof.
  revert n dependencies.
  induction structure as [|item rest IH]; intros n dependencies;
    cbn [fetch_dependency_files length].
  - split; [lia|]. intros file content H. now left.
  - assert (Hkeep : forall n0 deps0,
      n <= n0 <= n + 2 ->
      (forall file content,
         deps0 !! file = Some content ->
         dependencies !! file = Some content \/
         (str_in file DEPENDENCY_FILES = true /\ length content <= 4000 /\
          name item = file /\ json_eq_str (type item) (lit "file") = true)) ->
      let '(result, n') := fetch_dependency_files w n0 owner repo rest deps0 in
      n <= n' <= n + 2 * S (length rest) /\
      forall file content,
        result !! file = Some content ->
        dependencies !! file = Some content \/
        (str_in file DEPENDENCY_FILES = true /\ length content <= 4000 /\
         exists item0,
           In item0 (item :: rest) /\ name item0 = file /\
           json_eq_str (type item0) (lit "file") = true)).
    { intros n0 deps0 Hn0 Hdeps0. specialize (IH n0 deps0).
      destruct (fetch_dependency_files w n0 owner repo rest deps0) as [result n'].
      destruct IH as (Hn & Hres). split; [lia|].
      intros file content Hfile.
      destruct (Hres file content Hfile) as [H0 | (H1 & H2 & item0 & H3 & H4 & H5)].
      - destruct (Hdeps0 file content H0) as [H|(H1 & H2 & H3 & H4)]; [now left|].
        right. repeat split; try easy. exists item. repeat split; try easy. now left.
      - right. repeat split; try easy. exists item0. repeat split; try easy. now right. }
    destruct (json_eq_str (type item) (lit "file") && str_in (name item) DEPENDENCY_FILES)
      eqn:Hrec.
    + apply andb_true_iff in Hrec as [Hfile Hin].
      pose proof (fetch_from_branches_spec n owner repo item [lit "main"; lit "master"])
        as Hb.
      destruct (fetch_from_branches w n owner repo item [lit "main"; lit "master"])
        as [[content|] n1].
      * destruct Hb as (Hn1 & Hlen & _). cbn [length] in Hn1.
        apply Hkeep; [lia|]. intros file c Hc.
        destruct (decide (name item = file)) as [<-|Hne].
        -- rewrite lookup_insert_eq in Hc. injection Hc as <-.
           right. repeat split; try easy. now apply Hlen.
        -- rewrite lookup_insert_ne in Hc by exact Hne. now left.
      * destruct Hb as (Hn1 & _ & _). cbn [length] in Hn1.
        apply Hkeep; [lia|]. intros file c Hc. now left.
    + apply Hkeep; [lia|]. intros file c Hc. now left.
Qed.

(** [fetch_dependency_files] returns only names of the fixed list that
    belong to a file of the listing, with at most 4000 characters of
    content each, and makes at most two requests for each entry of the
    listing. *)
Theorem fetch_dependency_files_recognized (n : nat) (owner repo : str)
    (structure : list entry) :
  let '(result, n') := fetch_dependency_files w n owner repo structure ∅ in
  n <= n' <= n + 2 * length structure /\
  forall file content,
    result !! file = Some content ->
    str_in file DEPENDENCY_FILES = true /\
    length content <= 4000 /\
    exists item,
      In item structure /\ name item = file /\
      json_eq_str (type item) (lit "file") = true.
Proof.
  pose proof (fetch_dependency_files_inv n owner repo structure ∅) as H.
  destruct (fetch_dependency_files w n owner repo structure ∅) as [result n'].
  destruct H as (Hn & H). split; [exact Hn|].
  intros file content Hf. destruct (H file content Hf) as [H0|H0]; [|exact H0].
  now rewrite lookup_empty in H0.
Qed.

(** Without a recognized file in the listing, no request is made and the
    dictionary is unchanged. *)
Theorem fetch_dependency_files_nothing_to_fetch (n : nat) (owner repo : str)
    (structure : list entry) (dependencies : gmap str str) :
  (forall item, In item structure ->
     json_eq_str (type item) (lit "file") && str_in (name item) DEPENDENCY_FILES
     = false) ->
  fetch_dependency_files w n owner repo structure dependencies = (dependencies, n).
Proof.
  induction structure as [|item rest IH]; intros H; cbn [fetch_dependency_files];
    [reflexivity|].
  rewrite (H item (or_introl eq_refl)). apply IH.
  intros item0 Hin. apply H. now right.
Qed.

Lemma fetch_github_data_cases (owner repo : str) :
  let result := fetch_github_data unicode_lower b64decode_utf8 GITHUB_TOKEN w owner repo in
  let answered_with (P : json -> Prop) :=
    exists response body,
      w 0 (RepoUrl owner repo) = Responded response /\
      status_code response = 200%Z /\
      json_body response = Decoded body /\ P body in
  (exists data,
     result = Return (Some data, None) /\
     answered_with (fun body => exists m, body = JObject m)) \/
  (result = Raise AttributeError /\
   answered_with (fun body => forall m, body <> JObject m)) \/
  (exists error,
     result = Return (None, Some error) /\ error <> [] /\
     failed_json (w 0 (RepoUrl owner repo))).
Proof.
  cbn zeta. unfold fetch_github_data.
  assert (Hne : forall a b : str, a <> [] -> a ++ b <> []).
  { intros a b Ha E. apply app_eq_nil in E. now destruct E. }
  destruct (w 0 _) as [|e|response].
  - right. right. eexists. split; [reflexivity|]. split; [discriminate|exact I].
  - right. right. eexists. split; [reflexivity|].
    split; [apply Hne; discriminate|exact I].
  - destruct (status_code response =? 404)%Z eqn:H404.
    { apply Z.eqb_eq in H404. right. right. eexists. split; [reflexivity|].
      split; [apply Hne; discriminate|]. left. lia. }
    destruct (status_code response =? 403)%Z eqn:H403.
    { apply Z.eqb_eq in H403. right. right.
      destruct (str_eqb _ (lit "0")).
      - eexists. split; [reflexivity|]. split; [|left; lia].
        unfold rate_limit_message.
        destruct (str_eqb GITHUB_TOKEN []); rewrite <- ?app_assoc;
          apply Hne; discriminate.
      - eexists. split; [reflexivity|]. split; [discriminate|left; lia]. }
    destruct (status_code response =? 200)%Z eqn:H200; cbn [negb].
    2:{ apply Z.eqb_neq in H200. right. right. eexists. split; [reflexivity|].
        split; [apply Hne; discriminate|now left]. }
    apply Z.eqb_eq in H200.
    destruct (json_body response) as [body|e] eqn:Hbody.
    2:{ right. right. eexists. split; [reflexivity|].
        split; [apply Hne; discriminate|]. right. eauto. }
    destruct (fetch_dependency_files _ _ _ _ _ _) as [deps k].
    destruct body as [| | | | |m];
      try (right; left; split; [reflexivity|];
           exists response; eexists; repeat split; try eassumption; discriminate).
    left. cbn [py_get mbind outcome_bind]. eexists. split; [reflexivity|].
    exists response, (JObject m). repeat split; eauto.
Qed.

(** What [fetch_github_data] gives is one of three things: a payload
    without an error, when the repository request answers 200 with an
    object; [AttributeError], when it answers 200 with JSON that is not an
    object; an error message that is not empty, without a payload, in every
    other case. *)
Theorem fetch_github_data_outcomes (owner repo : str) :
  let result := fetch_github_data unicode_lower b64decode_utf8 GITHUB_TOKEN w owner repo in
  let answered_with (P : json -> Prop) :=
    exists response body,
      w 0 (RepoUrl owner repo) = Responded response /\
      status_code response = 200%Z /\
      json_body response = Decoded body /\ P body in
  (exists data,
     result = Return (Some data, None) /\
     answered_with (fun body => exists m, body = JObject m)) \/
  (result = Raise AttributeError /\
   answered_with (fun body => forall m, body <> JObject m)) \/
  (exists error,
     result = Return (None, Some error) /\ error <> [] /\
     failed_json (w 0 (RepoUrl owner repo))).
Proof. apply fetch_github_data_cases. Qed.

(** The payload keeps the bounds of its parts: a README of at most 8000
    characters, and dependency files that are recognized names of files of
    the listing in the payload, each of at most 4000 characters. *)
Theorem fetch_github_data_payload (owner repo : str) (data : repo_data) :
  fetch_github_data unicode_lower b64decode_utf8 GITHUB_TOKEN w owner repo
  = Return (Some data, None) ->
  (forall text, readme data = Some text -> length text <= 8000) /\
  (forall file content,
     dependencies data !! file = Some content ->
     str_in file DEPENDENCY_FILES = true /\
     length content <= 4000 /\
     exists item,
       In item (structure data) /\ name item = file /\
       json_eq_str (type item) (lit "file") = true).
Proof.
  unfold fetch_github_data.
  destruct (w 0 _) as [| |response]; try easy.
  destruct (status_code response =? 404)%Z; [easy|].
  destruct (status_code response =? 403)%Z; [now destruct (str_eqb _ _)|].
  destruct (negb _); [easy|].
  destruct (json_body response) as [repo_info|]; [|easy].
  pose proof (fetch_dependency_files_inv 3 owner repo
                (fetch_repo_structure unicode_lower w 2 owner repo) ∅) as Hdeps.
  destruct (fetch_dependency_files _ _ _ _ _ _) as [deps k].
  destruct repo_info as [| | | | |m]; try easy.
  cbn [py_get mbind outcome_bind]. intros [= <-].
  cbn [readme dependencies structure]. split.
  - intros text Ht. apply fetch_readme_inv in Ht.
    destruct Ht as (_ & _ & _ & decoded & _ & _ & _ & _ & _ & _ & _ & ->).
    apply slice_to_length.
  - intros file content Hf. destruct Hdeps as (_ & Hdeps).
    destruct (Hdeps file content Hf) as [H|H]; [|exact H].
    now rewrite lookup_empty in H.
Qed.

End ClientProperties.

(** ** The rate-limit probe and the generation call *)

Section GenerationProperties.

#[local] Arguments lit : simpl never.

(** [check_rate_limit] gives a dictionary exactly for an answer 200 whose
    body is an object in which [resources] and [core], where present, are
    objects; a number that [core] lacks is 0, and [reset_time] is read
    from the key [reset]. *)
Theorem check_rate_limit_some (o : http_outcome) (info : rate_info) :
  check_rate_limit o = Some info <->
  exists response data core,
    o = Responded response /\
    status_code response = 200%Z /\
    json_body response = Decoded (JObject data) /\
    rate_core data = Some core /\
    info = {| limit := default (JNumber (lit "0")) (core !! lit "limit");
              remaining := default (JNumber (lit "0")) (core !! lit "remaining");
              reset_time := default (JNumber (lit "0")) (core !! lit "reset") |}.
Proof.
  split.
  - unfold check_rate_limit, rate_core.
    destruct o as [| |response]; try easy.
    destruct (status_code response =? 200)%Z eqn:Hs; [|easy].
    apply Z.eqb_eq in Hs.
    destruct (json_body response) as [data|] eqn:Hb; [|easy].
    destruct data as [| | | | |data]; try easy.
    intros H. exists response, data.
    cbn [py_get mbind outcome_bind] in H.
    destruct (data !! lit "resources") as [resources|]; cbn [from_option id] in H.
    + destruct resources as [| | | | |resources]; try easy.
      cbn [py_get mbind outcome_bind] in H.
      destruct (resources !! lit "core") as [core|]; cbn [from_option id] in H.
      * destruct core as [| | | | |core]; try easy.
        cbn [py_get mbind outcome_bind] in H. injection H as <-.
        now exists core.
      * cbn [py_get mbind outcome_bind] in H. injection H as <-. now exists ∅.
    + cbn [py_get mbind outcome_bind from_option id] in H.
      rewrite lookup_empty in H. cbn [py_get mbind outcome_bind from_option id] in H.
      injection H as <-. now exists ∅.
  - intros (response & data & core & -> & Hs & Hb & Hc & ->).
    unfold check_rate_limit, rate_core in *.
    rewrite Hs, Z.eqb_refl, Hb. cbn [py_get mbind outcome_bind].
    destruct (data !! lit "resources") as [resources|]; cbn [from_option id].
    + destruct resources as [| | | | |resources]; try easy.
      cbn [py_get mbind outcome_bind].
      destruct (resources !! lit "core") as [c|]; cbn [from_option id].
      * destruct c as [| | | | |c]; try easy. now injection Hc as ->.
      * now injection Hc as <-.
    + cbn [py_get mbind outcome_bind]. rewrite lookup_empty.
      cbn [py_get mbind outcome_bind from_option id]. now injection Hc as <-.
Qed.

Lemma contains_getitem (key : str) (data : json)
    (k : json -> outcome (option json)) (text : json) :
  (has ← py_contains key data;
   if has : bool then v ← py_getitem data key; k v else Return None)
  = Return (Some text) <->
  exists m v, data = JObject m /\ m !! key = Some v /\ k v = Return (Some text).
Proof.
  split.
  - destruct data as [| | |s|l|m]; cbn [py_contains mbind outcome_bind]; try easy.
    + destruct (has_infix s key); cbn [py_getitem mbind outcome_bind]; easy.
    + destruct (existsb _ l); cbn [py_getitem mbind outcome_bind]; easy.
    + case_bool_decide as Hk; [|easy]. cbn [py_getitem].
      destruct (m !! key) as [v|] eqn:Hv; [|easy]. cbn [mbind outcome_bind].
      intros H. now exists m, v.
  - intros (m & v & -> & Hv & Hk). cbn [py_contains mbind outcome_bind].
    rewrite bool_decide_eq_true_2 by (rewrite Hv; eauto).
    cbn [py_getitem]. rewrite Hv. exact Hk.
Qed.

Lemma first_item_object (v : json)
    (k : json -> outcome (option json)) (text : json) :
  (forall x, k x = Return (Some text) -> exists m, x = JObject m) ->
  (first ← first_item v;
   match first with None => Return None | Some x => k x end)
  = Return (Some text) <->
  exists m rest, v = JArray (JObject m :: rest) /\ k (JObject m) = Return (Some text).
Proof.
  intros Hobj. split.
  - destruct v as [| | |s|l|m]; cbn [first_item mbind outcome_bind]; try easy.
    + destruct s as [|c s]; cbn [mbind outcome_bind]; [easy|].
      intros H. now destruct (Hobj _ H).
    + destruct l as [|x l]; cbn [mbind outcome_bind]; [easy|].
      intros H. destruct (Hobj _ H) as [m ->]. now exists m, l.
    + destruct (decide _); cbn [mbind outcome_bind]; easy.
  - intros (m & rest & -> & H). exact H.
Qed.

(** The envelope from which [call_gemini_api] takes a text. *)
Lemma candidate_text_some (result text : json) :
  candidate_text result = Return (Some text) <->
  exists body candidate rest content part rest',
    result = JObject body /\
    body !! lit "candidates" = Some (JArray (JObject candidate :: rest)) /\
    candidate !! lit "content" = Some (JObject content) /\
    content !! lit "parts" = Some (JArray (JObject part :: rest')) /\
    part !! lit "text" = Some text.
Proof.
  unfold candidate_text.
  assert (Hpart : forall part0,
    (has_text ← py_contains (lit "text") part0;
     if has_text : bool then
       text0 ← py_getitem part0 (lit "text"); Return (Some text0)
     else Return None) = Return (Some text) <->
    exists part, part0 = JObject part /\ part !! lit "text" = Some text).
  { intros part0.
    rewrite (contains_getitem (lit "text") part0 (fun v => Return (Some v)) text).
    split.
    - intros (m & v & -> & Hv & [= ->]). now exists m.
    - intros (m & -> & Hv). now exists m, text. }
  assert (Hcontent : forall content0,
    (has_parts ← py_contains (lit "parts") content0;
     if has_parts : bool then
       parts ← py_getitem content0 (lit "parts");
       first_part ← first_item parts;
       match first_part with
       | None => Return None
       | Some part =>
           has_text ← py_contains (lit "text") part;
           if has_text : bool then
             text0 ← py_getitem part (lit "text"); Return (Some text0)
           else Return None
       end
     else Return None) = Return (Some text) <->
    exists content part rest',
      content0 = JObject content /\
      content !! lit "parts" = Some (JArray (JObject part :: rest')) /\
      part !! lit "text" = Some text).
  { intros content0. rewrite contains_getitem. split.
    - intros (m & v & -> & Hv & H).
      apply first_item_object in H.
      + destruct H as (part & rest' & -> & H). apply Hpart in H.
        destruct H as (part' & [= <-] & H). now exists m, part, rest'.
      + intros x Hx. apply Hpart in Hx as (part & -> & _). eauto.
    - intros (content & part & rest' & -> & Hp & Ht).
      exists content, (JArray (JObject part :: rest')).
      split; [reflexivity|]. split; [exact Hp|].
      apply first_item_object.
      + intros x Hx. apply Hpart in Hx as (p & -> & _). eauto.
      + exists part, rest'. split; [reflexivity|]. apply Hpart. eauto. }
  assert (Hcandidate : forall candidate0,
    (has_content ← py_contains (lit "content") candidate0;
     if has_content : bool then
       content ← py_getitem candidate0 (lit "content");
       has_parts ← py_contains (lit "parts") content;
       if has_parts : bool then
         parts ← py_getitem content (lit "parts");
         first_part ← first_item parts;
         match first_part with
         | None => Return None
         | Some part =>
             has_text ← py_contains (lit "text") part;
             if has_text : bool then
               text0 ← py_getitem part (lit "text"); Return (Some text0)
             else Return None
         end
       else Return None
     else Return None) = Return (Some text) <->
    exists candidate content part rest',
      candidate0 = JObject candidate /\
      candidate !! lit "content" = Some (JObject content) /\
      content !! lit "parts" = Some (JArray (JObject part :: rest')) /\
      part !! lit "text" = Some text).
  { intros candidate0. rewrite contains_getitem. split.
    - intros (m & v & -> & Hv & H). apply Hcontent in H.
      destruct H as (content & part & rest' & -> & Hp & Ht).
      now exists m, content, part, rest'.
    - intros (candidate & content & part & rest' & -> & Hc & Hp & Ht).
      exists candidate, (JObject content).
      split; [reflexivity|]. split; [exact Hc|]. apply Hcontent.
      now exists content, part, rest'. }
  rewrite contains_getitem. split.
  - intros (body & v & -> & Hv & H). apply first_item_object in H.
    + destruct H as (candidate & rest & -> & H). apply Hcandidate in H.
      destruct H as (c & content & part & rest' & [= <-] & Hc & Hp & Ht).
      now exists body, candidate, rest, content, part, rest'.
    + intros x Hx. apply Hcandidate in Hx as (c & ? & ? & ? & -> & _). eauto.
  - intros (body & candidate & rest & content & part & rest' & -> & Hb & Hc & Hp & Ht).
    exists body, (JArray (JObject candidate :: rest)).
    split; [reflexivity|]. split; [exact Hb|]. apply first_item_object.
    + intros x Hx. apply Hcandidate in Hx as (c & ? & ? & ? & -> & _). eauto.
    + exists candidate, rest. split; [reflexivity|]. apply Hcandidate.
      now exists candidate, content, part, rest'.
Qed.

Variable exception_text : response -> str.
Variable message_text : response -> str.

Lemma call_gemini_api_cases (o : http_outcome) :
  (exists error,
     call_gemini_api exception_text message_text o = (JNull, Some error) /\
     error <> []) \/
  (exists text, call_gemini_api exception_text message_text o = (text, None)).
Proof.
  assert (Hne : forall a b : str, a <> [] -> a ++ b <> []).
  { intros a b Ha E. apply app_eq_nil in E. now destruct E. }
  unfold call_gemini_api.
  destruct o as [|e|response].
  - left. eexists. split; [reflexivity|discriminate].
  - left. eexists. split; [reflexivity|]. apply Hne. discriminate.
  - destruct (json_body response) as [result|e].
    2:{ left. eexists. split; [reflexivity|]. apply Hne. discriminate. }
    destruct (status_code response =? 200)%Z.
    + destruct (candidate_text result) as [[text|]|].
      * right. now exists text.
      * left. eexists. split; [reflexivity|discriminate].
      * left. eexists. split; [reflexivity|]. apply Hne. discriminate.
    + destruct (mbind _ _) as [[]|];
        left; eexists; (split; [reflexivity|]); apply Hne; discriminate.
Qed.

(** [call_gemini_api] never gives both a text and an error: an error
    message comes without a text and is not empty.  It can give neither:
    without an error the text is the value that the answer has under
    [text], and for the value [null] both components are [None]. *)
Theorem call_gemini_api_never_both :
  (forall o text error,
     call_gemini_api exception_text message_text o = (text, Some error) ->
     text = JNull /\ error <> []) /\
  call_gemini_api exception_text message_text
    (Responded (ok_response (envelope JNull)))
  = (JNull, None).
Proof.
  split; [|vm_compute; reflexivity].
  intros o text error H.
  destruct (call_gemini_api_cases o) as [(error' & E & Hne)|(text' & E)];
    rewrite E in H; [|discriminate H].
  injection H as <- <-. now split.
Qed.

(** It gives a text exactly for an answer 200 whose body is an object with
    a list [candidates] whose first item is an object, with an object
    [content], with a list [parts] whose first item is an object with a key
    [text]; the text is the value of that key, of whatever type. *)
Theorem call_gemini_api_success (o : http_outcome) (text : json) :
  call_gemini_api exception_text message_text o = (text, None) <->
  exists response body candidate rest content part rest',
    o = Responded response /\
    status_code response = 200%Z /\
    json_body response = Decoded (JObject body) /\
    body !! lit "candidates" = Some (JArray (JObject candidate :: rest)) /\
    candidate !! lit "content" = Some (JObject content) /\
    content !! lit "parts" = Some (JArray (JObject part :: rest')) /\
    part !! lit "text" = Some text.
Proof.
  split.
  - unfold call_gemini_api. destruct o as [| |response]; try easy.
    destruct (json_body response) as [result|] eqn:Hb; [|easy].
    destruct (status_code response =? 200)%Z eqn:Hs.
    + apply Z.eqb_eq in Hs.
      destruct (candidate_text result) as [[text'|]|] eqn:Hc; try easy.
      intros [= ->]. apply candidate_text_some in Hc.
      destruct Hc as (body & candidate & rest & content & part & rest' & -> & H).
      now exists response, body, candidate, rest, content, part, rest'.
    + now destruct (mbind _ _) as [[]|].
  - intros (response & body & candidate & rest & content & part & rest'
            & -> & Hs & Hb & H).
    unfold call_gemini_api. rewrite Hb, Hs, Z.eqb_refl.
    assert (Hc : candidate_text (JObject body) = Return (Some text)).
    { apply candidate_text_some.
      now exists body, candidate, rest, content, part, rest'. }
    now rewrite Hc.
Qed.

End GenerationProperties.

(** ** The analyze route *)

Section AnalyzeProperties.

#[local] Arguments lit : simpl never.

Variable exception_text : response -> str.
Variable message_text : response -> str.
Variable unicode_lower : str -> str.
Variable b64decode_utf8 : str -> option str.
Variable GITHUB_TOKEN : str.
Variable w : world.
Variable prompted : repo_data -> str -> str -> outcome http_outcome.

#[local] Abbreviation analyze' :=
  (analyze exception_text message_text unicode_lower b64decode_utf8 GITHUB_TOKEN
     w prompted).
#[local] Abbreviation fetch_github_data' :=
  (fetch_github_data unicode_lower b64decode_utf8 GITHUB_TOKEN w).
#[local] Abbreviation call_gemini_api' := (call_gemini_api exception_text message_text).

Lemma extract_repo_info_strip (s : str) :
  extract_repo_info (strip s) = extract_repo_info s.
Proof. unfold extract_repo_info. now rewrite strip_idem. Qed.

Lemma extract_repo_info_blank (s : str) :
  strip s = [] -> extract_repo_info s = (None, None).
Proof. intros H. unfold extract_repo_info. rewrite H. reflexivity. Qed.

Lemma analyze_cases (form_github_url : option str) :
  ((forall owner repo, ~ names form_github_url owner repo) /\
   exists error,
     analyze' form_github_url = Return (error_html error (lit "validation")) /\
     error <> []) \/
  exists owner repo,
    names form_github_url owner repo /\
    ((exists e,
        fetch_github_data' owner repo = Raise e /\
        analyze' form_github_url = Raise e) \/
     (exists error,
        fetch_github_data' owner repo = Return (None, Some error) /\
        error <> [] /\
        analyze' form_github_url = Return (error_html error (lit "github"))) \/
     exists data,
       fetch_github_data' owner repo = Return (Some data, None) /\
       ((exists e,
           prompted data owner repo = Raise e /\
           analyze' form_github_url = Raise e) \/
        exists o,
          prompted data owner repo = Return o /\
          ((exists error,
              call_gemini_api' o = (JNull, Some error) /\ error <> [] /\
              analyze' form_github_url
              = Return (error_html error (lit "gemini"))) \/
           (exists v,
              call_gemini_api' o = (v, None) /\ (forall s, v <> JString s) /\
              analyze' form_github_url = Raise AttributeError) \/
           (exists text,
              call_gemini_api' o = (JString text, None) /\
              analyze' form_github_url
              = (sections ← parse_analysis unicode_lower text;
                 Return (results_html owner repo
                           (lit "https://github.com/" ++ owner ++ lit "/" ++ repo)
                           sections data)))))).
Proof.
  unfold analyze, names.
  set (field := default [] form_github_url).
  unfold str_eqb. case_bool_decide as Hblank.
  { left. split.
    - intros owner repo [H _]. now rewrite (extract_repo_info_blank _ Hblank) in H.
    - eexists. split; [reflexivity|]. lit_neq. }
  rewrite extract_repo_info_strip.
  destruct (extract_repo_info field) as [[[|oc owner]|] [[|rc repo]|]] eqn:Hx;
    try (now apply extract_repo_info_owner in Hx);
    try (left; split;
         [intros ? ? [[= <- <-] Hr]; now apply Hr
         |eexists; split; [reflexivity|lit_neq]]).
  right. exists (oc :: owner), (rc :: repo). split; [easy|].
  destruct (fetch_github_data_cases unicode_lower b64decode_utf8 GITHUB_TOKEN w
              (oc :: owner) (rc :: repo))
    as [(data & Hf & _)|[(Hf & _)|(error & Hf & Hne & _)]];
    rewrite Hf; cbn [mbind outcome_bind].
  - right. right. exists data. split; [reflexivity|].
    unfold generate_analysis.
    destruct (prompted data (oc :: owner) (rc :: repo)) as [o|e];
      cbn [mbind outcome_bind]; [|left; now exists e].
    right. exists o. split; [reflexivity|].
    destruct (call_gemini_api_cases exception_text message_text o)
      as [(error & Hc & Hne)|(v & Hc)]; rewrite Hc.
    + left. exists error. destruct error as [|c error]; easy.
    + right. destruct v as [| | |text| |];
        try (left; eexists; split; [reflexivity|]; split; [discriminate|reflexivity]).
      right. now exists text.
  - left. now exists AttributeError.
  - right. left. exists error. destruct error as [|c error]; easy.
Qed.

(** The answer is a validation page exactly when the field of the form
    does not name a repository: when [extract_repo_info] finds no names in
    it, or an empty repository name.  No request decides it. *)
Theorem analyze_validation (form_github_url : option str) :
  (exists error,
     analyze' form_github_url = Return (error_html error (lit "validation")))
  <->
  forall owner repo, ~ names form_github_url owner repo.
Proof.
  split.
  - intros (error & H).
    destruct (analyze_cases form_github_url)
      as [[Hn _]|(owner & repo & _ & Hc)]; [exact Hn|].
    exfalso.
    destruct Hc as [(e & _ & E)|[(err & _ & _ & E)|(data & _ & Hc)]];
      [congruence| |].
    { rewrite E in H. injection H as _ H. vm_compute in H. discriminate H. }
    destruct Hc as [(e & _ & E)|(o & _ & Hc)]; [congruence|].
    destruct Hc as [(err & _ & _ & E)|[(v & _ & _ & E)|(text & _ & E)]];
      [|congruence|].
    { rewrite E in H. injection H as _ H. vm_compute in H. discriminate H. }
    rewrite E in H. now destruct (parse_analysis unicode_lower text).
  - intros Hn.
    destruct (analyze_cases form_github_url)
      as [[_ (error & H & _)]|(owner & repo & Hv & _)]; [now exists error|].
    now destruct (Hn owner repo).
Qed.

(** An error page has a message that is not empty, and one of three
    types: [validation]; [github], with the message of
    [fetch_github_data]; [gemini], with the message of
    [call_gemini_api]. *)
Theorem analyze_error_page (form_github_url : option str) (error error_type : str) :
  analyze' form_github_url = Return (error_html error error_type) ->
  error <> [] /\
  (error_type = lit "validation" \/
   (error_type = lit "github" /\
    exists owner repo,
      names form_github_url owner repo /\
      fetch_github_data' owner repo = Return (None, Some error)) \/
   (error_type = lit "gemini" /\
    exists owner repo data o,
      names form_github_url owner repo /\
      fetch_github_data' owner repo = Return (Some data, None) /\
      prompted data owner repo = Return o /\
      call_gemini_api' o = (JNull, Some error))).
Proof.
  intros H.
  destruct (analyze_cases form_github_url)
    as [[_ (err & E & Hne)]|(owner & repo & Hv & Hc)].
  { rewrite E in H. injection H as <- <-. split; [exact Hne|now left]. }
  destruct Hc as [(e & _ & E)|[(err & Hf & Hne & E)|(data & Hf & Hc)]];
    [congruence| |].
  { rewrite E in H. injection H as <- <-. split; [exact Hne|].
    right. left. split; [reflexivity|]. now exists owner, repo. }
  destruct Hc as [(e & _ & E)|(o & Hp & Hc)]; [congruence|].
  destruct Hc as [(err & Hc & Hne & E)|[(v & _ & _ & E)|(text & _ & E)]];
    [|congruence|].
  { rewrite E in H. injection H as <- <-. split; [exact Hne|].
    right. right. split; [reflexivity|]. now exists owner, repo, data, o. }
  rewrite E in H. now destruct (parse_analysis unicode_lower text).
Qed.

(** The results page is rendered exactly when every step succeeded: the
    field names a repository, [fetch_github_data] returned a payload, the
    generation call returned a string, and [parse_analysis] returned the
    sections; the link is built from the extracted names. *)
Theorem analyze_results (form_github_url : option str) (owner repo github_url : str)
    (sections : json) (data : repo_data) :
  analyze' form_github_url
  = Return (results_html owner repo github_url sections data)
  <->
  names form_github_url owner repo /\
  github_url = lit "https://github.com/" ++ owner ++ lit "/" ++ repo /\
  fetch_github_data' owner repo = Return (Some data, None) /\
  exists o text,
    prompted data owner repo = Return o /\
    call_gemini_api' o = (JString text, None) /\
    parse_analysis unicode_lower text = Return sections.
Proof.
  destruct (analyze_cases form_github_url)
    as [[Hn (err & E & _)]|(owner' & repo' & Hv & Hc)].
  { split; [congruence|]. intros (Hv & _). now destruct (Hn owner repo). }
  assert (Hsame : names form_github_url owner repo -> owner' = owner /\ repo' = repo).
  { intros [Hx _]. destruct Hv as [Hx' _]. rewrite Hx in Hx'. now injection Hx'. }
  destruct Hc as [(e & Hf & E)|[(err & Hf & _ & E)|(data' & Hf & Hc)]].
  { split; [congruence|]. intros (Hv' & _ & Hf' & _).
    destruct (Hsame Hv') as [-> ->]. congruence. }
  { split; [congruence|]. intros (Hv' & _ & Hf' & _).
    destruct (Hsame Hv') as [-> ->]. congruence. }
  assert (Hdata : names form_github_url owner repo ->
                  fetch_github_data' owner repo = Return (Some data, None) ->
                  owner' = owner /\ repo' = repo /\ data' = data).
  { intros Hv' Hf'. destruct (Hsame Hv') as [-> ->]. rewrite Hf in Hf'.
    now injection Hf'. }
  destruct Hc as [(e & Hp & E)|(o & Hp & Hc)].
  { split; [congruence|]. intros (Hv' & _ & Hf' & o & text & Hp' & _).
    destruct (Hdata Hv' Hf') as (-> & -> & ->). congruence. }
  destruct Hc as [(err & Hc & _ & E)|[(v & Hc & Hv0 & E)|(text & Hc & E)]].
  { split; [congruence|]. intros (Hv' & _ & Hf' & o' & text & Hp' & Hc' & _).
    destruct (Hdata Hv' Hf') as (-> & -> & ->). congruence. }
  { split; [congruence|]. intros (Hv' & _ & Hf' & o' & text & Hp' & Hc' & _).
    destruct (Hdata Hv' Hf') as (-> & -> & ->).
    rewrite Hp in Hp'. injection Hp' as <-. rewrite Hc in Hc'.
    injection Hc' as ->. now destruct (Hv0 text). }
  rewrite E. split.
  - destruct (parse_analysis unicode_lower text) as [s|e] eqn:Hs; [|easy].
    cbn [mbind outcome_bind]. intros [= <- <- <- <- <-].
    split; [exact Hv|]. split; [reflexivity|]. split; [exact Hf|].
    now exists o, text.
  - intros (Hv' & -> & Hf' & o' & text' & Hp' & Hc' & Hs).
    destruct (Hdata Hv' Hf') as (-> & -> & ->).
    rewrite Hp in Hp'. injection Hp' as <-. rewrite Hc in Hc'.
    injection Hc' as <-. now rewrite Hs.
Qed.

(** The route raises, which the server answers with its page for status
    500, in four cases only: [fetch_github_data] raised; building the
    prompt raised; the generated text is not a string;
    [parse_analysis] raised. *)
Theorem analyze_raises (form_github_url : option str) (e : exn) :
  analyze' form_github_url = Raise e ->
  exists owner repo,
    names form_github_url owner repo /\
    (fetch_github_data' owner repo = Raise e \/
     exists data,
       fetch_github_data' owner repo = Return (Some data, None) /\
       (prompted data owner repo = Raise e \/
        exists o v,
          prompted data owner repo = Return o /\
          call_gemini_api' o = (v, None) /\
          ((e = AttributeError /\ forall s, v <> JString s) \/
           exists text,
             v = JString text /\ parse_analysis unicode_lower text = Raise e))).
Proof.
  intros H.
  destruct (analyze_cases form_github_url)
    as [[_ (err & E & _)]|(owner & repo & Hv & Hc)]; [congruence|].
  exists owner, repo. split; [exact Hv|].
  destruct Hc as [(e' & Hf & E)|[(err & _ & _ & E)|(data & Hf & Hc)]];
    [left; congruence|congruence|].
  right. exists data. split; [exact Hf|].
  destruct Hc as [(e' & Hp & E)|(o & Hp & Hc)]; [left; congruence|].
  right. exists o.
  destruct Hc as [(err & _ & _ & E)|[(v & Hc & Hv0 & E)|(text & Hc & E)]];
    [congruence| |].
  - exists v. split; [exact Hp|]. split; [exact Hc|]. left.
    split; [congruence|exact Hv0].
  - exists (JString text). split; [exact Hp|]. split; [exact Hc|]. right.
    exists text. split; [reflexivity|].
    rewrite E in H.
    destruct (parse_analysis unicode_lower text) as [s|e'];
      cbn [mbind outcome_bind] in H; [discriminate H|now injection H as ->].
Qed.

End AnalyzeProperties.

(** ** The link of the results page *)

Section CanonicalLink.

Lemma replace_no_infix (s old new : str) :
  has_infix s old = false -> replace s old new = s.
Proof.
  unfold replace. induction s as [|c s IH]; [reflexivity|].
  cbn [has_infix replace_from]. intros H.
  apply orb_false_iff in H as [H1 H2]. rewrite H1. now rewrite IH.
Qed.

(** The address that the results page links to, which [analyze] builds
    from the names that [extract_repo_info] returned, gives back these names
    when it is parsed again, provided the repository name is not empty and
    no [.git] is left in it. *)
Theorem extract_repo_info_canonical (github_url owner repo : str) :
  extract_repo_info github_url = (Some owner, Some repo) ->
  repo <> [] ->
  has_infix repo (lit ".git") = false ->
  extract_repo_info (lit "https://github.com/" ++ owner ++ lit "/" ++ repo)
  = (Some owner, Some repo).
Proof.
  intros Hx Hrepo Hgit.
  destruct (extract_repo_info_inv _ _ _ Hx) as (segment & Hr & Ho & Ho' & _ & Hs).
  assert (Hchars : forallb repo_char repo = true).
  { rewrite Hr. now apply replace_from_forallb. }
  pose proof (extract_repo_info_first_occurrence (lit "https://") owner repo []
                Ho Ho' Hrepo Hchars) as H.
  rewrite app_nil_r, (replace_no_infix _ _ _ Hgit) in H.
  apply H.
  - intros c r [=].
  - intros p1 p2 E Hp2.
    do 9 (destruct p1 as [|? p1]; [cbn [app] in E; subst p2; reflexivity|];
          cbn [app] in E; try discriminate E; injection E as _ E).
Qed.

End CanonicalLink.

Lemma extract_repo_info_canonical_witness :
  extract_repo_info (lit "https://github.com/" ++ lit "octocat" ++ lit "/" ++ lit "demo")
  = (Some (lit "octocat"), Some (lit "demo")).
Proof.
  apply (extract_repo_info_canonical (lit "see github.com/octocat/demo.git"));
    [vm_compute; reflexivity|discriminate|vm_compute; reflexivity].
Defined.

(** ** The properties at concrete inputs *)

Lemma extract_repo_info_names_witness :
  lit "octocat" <> [] /\
  forallb not_slash (lit "octocat") = true /\
  forallb repo_char (lit "Hello-World") = true.
Proof.
  apply (extract_repo_info_names (lit "https://github.com/octocat/Hello-World")).
  vm_compute. reflexivity.
Defined.

Lemma extract_repo_info_needs_host_witness :
  extract_repo_info (lit "https://gitlab.com/octocat/demo") = (None, None).
Proof.
  apply (extract_repo_info_needs_host (lit "https://gitlab.com/octocat/demo")).
  vm_compute. reflexivity.
Defined.

Lemma extract_repo_info_surrounding_space_witness :
  extract_repo_info (lit "  " ++ lit "github.com/octocat/demo" ++ [10%N])
  = extract_repo_info (lit "github.com/octocat/demo").
Proof.
  apply (extract_repo_info_surrounding_space (lit "  ")
           (lit "github.com/octocat/demo") [10%N]);
    vm_compute; reflexivity.
Defined.

Lemma parse_analysis_keeps_values_witness :
  exists m',
    parse_analysis no_case_tables (dq "{'project_type':'API','license':'MIT'}")
    = Return (JObject m') /\
    m' !! lit "project_type" = Some (JString (lit "API")) /\
    m' !! lit "license" = Some (JString (lit "MIT")) /\
    m' !! lit "author" = None.
Proof.
  destruct (parse_analysis_keeps_values no_case_tables
              (dq "{'project_type':'API','license':'MIT'}")
              (<[lit "project_type" := JString (lit "API")]>
                 (<[lit "license" := JString (lit "MIT")]> ∅)))
    as (m' & Hm' & Hkeep & Hnone).
  - vm_compute. reflexivity.
  - intros v H. vm_compute in H. discriminate H.
  - intros items H. vm_compute in H. discriminate H.
  - exists m'. split; [exact Hm'|]. split; [|split].
    + apply Hkeep; [vm_compute; reflexivity|lit_neq|].
      intros E. vm_compute in E. discriminate E.
    + apply Hkeep; [vm_compute; reflexivity|lit_neq|].
      intros E. vm_compute in E. discriminate E.
    + apply Hnone; [vm_compute; reflexivity|].
      intros H. vm_compute in H. intuition discriminate.
Defined.

Lemma parse_analysis_field_types_witness :
  exists m' x ts,
    parse_analysis no_case_tables (dq "{'tech_stack':['Go','Redis']}")
    = Return (JObject m') /\
    m' !! lit "architecture_mermaid" = Some (JString x) /\
    m' !! lit "tech_stack" = Some ts /\
    (forall items, ts <> JArray items).
Proof.
  apply (parse_analysis_field_types no_case_tables
           (dq "{'tech_stack':['Go','Redis']}")
           (<[lit "tech_stack" := JArray [JString (lit "Go"); JString (lit "Redis")]]> ∅)).
  - vm_compute. reflexivity.
  - intros v H. vm_compute in H. discriminate H.
  - intros items H. vm_compute in H. injection H as <-. reflexivity.
Defined.

Lemma parse_analysis_error_record_witness :
  field (parse_analysis no_case_tables (lit "Sorry, no analysis."))
        (lit "architecture_mermaid")
  = Some (JString []).
Proof.
  apply (parse_analysis_error_record no_case_tables (lit "Sorry, no analysis.")).
  vm_compute. reflexivity.
Defined.

Lemma parse_analysis_surrounding_space_witness :
  parse_analysis no_case_tables ([10%N] ++ dq "{'project_type':'API'}" ++ lit "  ")
  = parse_analysis no_case_tables (dq "{'project_type':'API'}").
Proof.
  apply (parse_analysis_surrounding_space no_case_tables [10%N]
           (dq "{'project_type':'API'}") (lit "  ")
           (JObject (<[lit "project_type" := JString (lit "API")]> ∅)));
    vm_compute; reflexivity.
Defined.

Lemma parse_analysis_diagram_without_fence_witness :
  exists m' x,
    parse_analysis no_case_tables
      (dq "{'architecture_mermaid':'```mermaid A-->B```'}")
    = Return (JObject m') /\
    m' !! lit "architecture_mermaid" = Some (JString x) /\
    has_infix x fence = false.
Proof.
  apply (parse_analysis_diagram_without_fence no_case_tables
           (dq "{'architecture_mermaid':'```mermaid A-->B```'}")
           (<[lit "architecture_mermaid" := JString (lit "```mermaid A-->B```")]> ∅)).
  - vm_compute. reflexivity.
  - intros v H. vm_compute in H. injection H as <-. eexists. reflexivity.
  - intros items H. vm_compute in H. discriminate H.
Defined.

Lemma fetch_readme_some_witness : length (lit "hi") <= 8000.
Proof.
  apply (fetch_readme_some b64_hi w_full 1 (lit "octocat") (lit "demo") (lit "hi")).
  vm_compute. reflexivity.
Defined.

Lemma fetch_dependency_files_nothing_to_fetch_witness :
  fetch_dependency_files w_full 3 (lit "octocat") (lit "demo")
    [entry_of (listing_item "src" "dir"); entry_of (listing_item "main.py" "file")] ∅
  = (∅, 3).
Proof.
  apply (fetch_dependency_files_nothing_to_fetch w_full 3 (lit "octocat") (lit "demo")).
  intros item [<-|[<-|[]]]; vm_compute; reflexivity.
Defined.

Lemma fetch_github_data_payload_witness :
  exists data,
    fetch_github_data no_case_tables b64_hi [] w_full (lit "octocat") (lit "demo")
    = Return (Some data, None) /\
    readme data = Some (lit "hi") /\
    dependencies data !! lit "setup.py" = Some (lit "flask") /\
    length (lit "hi") <= 8000 /\
    str_in (lit "setup.py") DEPENDENCY_FILES = true.
Proof.
  pose proof (fetch_github_data_payload no_case_tables b64_hi [] w_full
                (lit "octocat") (lit "demo")) as P.
  eexists. split; [vm_compute; reflexivity|].
  match goal with
  | |- readme ?d = _ /\ _ =>
      destruct (P d) as [Hr Hd]; [vm_compute; reflexivity|]
  end.
  split; [reflexivity|]. split; [vm_compute; reflexivity|]. split.
  - apply Hr. reflexivity.
  - apply (Hd (lit "setup.py") (lit "flask")). vm_compute. reflexivity.
Defined.

Lemma check_rate_limit_some_witness :
  check_rate_limit
    (Responded (ok_response (JObject {[ lit "resources" := JObject ∅ ]})))
  = Some {| limit := JNumber (lit "0"); remaining := JNumber (lit "0");
            reset_time := JNumber (lit "0") |}.
Proof.
  apply (proj2 (check_rate_limit_some _ _)).
  exists (ok_response (JObject {[ lit "resources" := JObject ∅ ]})),
         {[ lit "resources" := JObject ∅ ]}, ∅.
  repeat split; vm_compute; reflexivity.
Defined.

Lemma call_gemini_api_never_both_witness :
  JNull = JNull /\ lit "Gemini API request timed out. Please try again." <> [].
Proof.
  apply (proj1 (call_gemini_api_never_both no_text no_text) Timeout).
  reflexivity.
Defined.

Lemma call_gemini_api_success_witness :
  call_gemini_api no_text no_text
    (Responded (ok_response (envelope (JString (lit "{}")))))
  = (JString (lit "{}"), None).
Proof.
  apply (proj2 (call_gemini_api_success no_text no_text _ _)).
  eexists (ok_response (envelope (JString (lit "{}")))), _, _, _, _, _, _.
  split; [reflexivity|]. split; [reflexivity|]. split; [reflexivity|].
  repeat split; vm_compute; reflexivity.
Defined.

Lemma analyze_validation_witness :
  exists error,
    analyze no_text no_text no_case_tables no_b64 [] w_down (answers (lit "{}"))
      (Some (lit "octocat/demo"))
    = Return (error_html error (lit "validation")).
Proof.
  apply (proj2 (analyze_validation no_text no_text no_case_tables no_b64 [] w_down
                  (answers (lit "{}")) (Some (lit "octocat/demo")))).
  intros owner repo [H _]. vm_compute in H. discriminate H.
Defined.

Lemma analyze_error_page_witness :
  lit "Request timed out. Please try again." <> [].
Proof.
  apply (analyze_error_page no_text no_text no_case_tables no_b64 [] w_down
           (answers (lit "{}")) (Some (lit "https://github.com/octocat/demo"))
           (lit "Request timed out. Please try again.") (lit "github")).
  vm_compute. reflexivity.
Defined.

Lemma analyze_results_witness :
  exists github_url sections data,
    analyze no_text no_text no_case_tables b64_hi [] w_full (answers (dq "{}"))
      (Some (lit " github.com/octocat/demo.git "))
    = Return (results_html (lit "octocat") (lit "demo") github_url sections data) /\
    github_url = lit "https://github.com/" ++ lit "octocat" ++ lit "/" ++ lit "demo" /\
    fetch_github_data no_case_tables b64_hi [] w_full (lit "octocat") (lit "demo")
    = Return (Some data, None).
Proof.
  eexists _, _, _.
  match goal with
  | |- ?H /\ _ =>
      assert (Hrun : H) by (vm_compute; reflexivity);
      split; [exact Hrun|];
      apply (proj1 (analyze_results _ _ _ _ _ _ _ _ _ _ _ _ _)) in Hrun;
      destruct Hrun as (_ & Hurl & Hfetch & _)
  end.
  split; [exact Hurl|exact Hfetch].
Defined.

Lemma analyze_raises_witness :
  exists owner repo,
    names (Some (lit "github.com/octocat/demo")) owner repo /\
    fetch_github_data no_case_tables no_b64 [] w_list owner repo
    = Raise AttributeError.
Proof.
  destruct (analyze_raises no_text no_text no_case_tables no_b64 [] w_list
              (answers (lit "{}")) (Some (lit "github.com/octocat/demo"))
              AttributeError)
    as (owner & repo & Hn & [Hf|(data & Hf & _)]).
  - vm_compute. reflexivity.
  - now exists owner, repo.
  - exfalso. destruct Hn as [Hx _]. vm_compute in Hx. injection Hx as <- <-.
    vm_compute in Hf. discriminate Hf.
Defined.
